(** * Timetable parser: a shallow embedding of [parser.py] and its properties

    The development follows the layout of the Python module:
    - Python strings are lists of Unicode code points ([list N]);
    - the character tables of the Python runtime (whitespace, decimal
      digits, word characters, case mapping) are an interface, the class
      [Unicode]; every function of the parser is written against it, and
      the general theorems hold for any tables;
    - the [re] module is a small backtracking matcher over a regex syntax
      tree, with greedy repetition, ordered alternation and capture groups;
    - [ParsedSession] is a record, the timetable is a nested association
      list in insertion order (a Python [dict] iterates in that order);
    - [semester_map] and [conflicts] of [infer_missing_semesters] are a
      [gmap] and a [gset]. *)

From Stdlib Require Import ZArith NArith Ascii String Permutation.
From stdpp Require Import base option list gmap.

Local Open Scope N_scope.
#[local] Set Warnings "-clear-no-such-hyp".

(** ** Strings *)

(** A Python [str]: a sequence of code points. *)
Abbreviation pystr := (list N).

Definition chr (a : ascii) : N := N_of_ascii a.

Fixpoint bytes_of (s : string) : list N :=
  match s with
  | EmptyString => []
  | String a s' => chr a :: bytes_of s'
  end.

(** Source literals are written as UTF-8 text; [utf8_decode] turns the bytes
    of a literal into its code points (one to four bytes per code point). *)
Fixpoint utf8_decode (bs : list N) : pystr :=
  match bs with
  | [] => []
  | b0 :: t0 =>
      if b0 <? 128 then b0 :: utf8_decode t0
      else if b0 <? 224 then
        match t0 with
        | b1 :: t1 => ((b0 - 192) * 64 + (b1 - 128)) :: utf8_decode t1
        | _ => []
        end
      else if b0 <? 240 then
        match t0 with
        | b1 :: b2 :: t2 =>
            ((b0 - 224) * 4096 + (b1 - 128) * 64 + (b2 - 128)) :: utf8_decode t2
        | _ => []
        end
      else
        match t0 with
        | b1 :: b2 :: b3 :: t3 =>
            ((b0 - 240) * 262144 + (b1 - 128) * 4096 + (b2 - 128) * 64 + (b3 - 128))
              :: utf8_decode t3
        | _ => []
        end
  end.

(** [u "text"] is the Python literal ["text"]. *)
Definition u (s : string) : pystr := utf8_decode (bytes_of s).
Arguments u s%_string.

(** The character tables of the Python runtime that the parser relies on.
    They are not part of the repository. *)
Class Unicode := {
  (** [str.isspace] on one character: what [str.strip], [str.split] and the
      regex class [\s] treat as whitespace *)
  isspace : N -> bool;
  (** the regex class [\d] *)
  isdecimal : N -> bool;
  (** the value [int] gives to a decimal digit *)
  decimal_value : N -> Z;
  (** the regex class [\w], which decides [\b] *)
  isword : N -> bool;
  (** [str.lower] *)
  lower : pystr -> pystr;
  (** equality of a pattern character and a subject character under
      [re.IGNORECASE] *)
  eq_ignorecase : N -> N -> bool
}.

(** The tables on the ASCII range, where they are the same in every version
    of Python; whitespace is the full table of [str.isspace]. *)
Definition ascii_isspace (c : N) : bool :=
  ((9 <=? c) && (c <=? 13)) || ((28 <=? c) && (c <=? 32))
  || (c =? 133) || (c =? 160) || (c =? 5760)
  || ((8192 <=? c) && (c <=? 8202))
  || (c =? 8232) || (c =? 8233) || (c =? 8239) || (c =? 8287) || (c =? 12288).

Definition ascii_isdecimal (c : N) : bool := (48 <=? c) && (c <=? 57).

Definition ascii_decimal_value (c : N) : Z := (Z.of_N c - 48)%Z.

Definition ascii_isword (c : N) : bool :=
  ascii_isdecimal c || ((65 <=? c) && (c <=? 90)) || ((97 <=? c) && (c <=? 122))
  || (c =? 95).

Definition ascii_lower_char (c : N) : N :=
  if (65 <=? c) && (c <=? 90) then c + 32 else c.

Definition ascii_tables : Unicode := {|
  isspace := ascii_isspace;
  isdecimal := ascii_isdecimal;
  decimal_value := ascii_decimal_value;
  isword := ascii_isword;
  lower := map ascii_lower_char;
  eq_ignorecase := fun a b => ascii_lower_char a =? ascii_lower_char b
|}.

(** ** Data model *)

(** [ParsedSession]; [to_dict] copies the same seventeen fields under the
    same names, so the record also stands for the session dictionaries of
    the timetable. *)
Record ParsedSession := Session {
  combined_class : option pystr;
  course_title : option pystr;
  course_code : option pystr;
  course_truncated : bool;
  program_line : option pystr;
  program_truncated : bool;
  degree : option pystr;
  program : option pystr;
  section : option pystr;
  session : option pystr;
  semester : option Z;
  teacher_name : option pystr;
  teacher_truncated : bool;
  start_time : option pystr;
  end_time : option pystr;
  practical : bool;
  raw_lines : list pystr
}.

(** The timetable: day -> room -> sessions, each level in insertion order. *)
Abbreviation rooms := (list (pystr * list ParsedSession)).
Abbreviation timetable := (list (pystr * rooms)).

Abbreviation semester_key := (pystr * pystr * pystr * pystr)%type.

(** A table as the walker reads it: the rows of [table.df], each the list
    [df.iloc[i].tolist()] with every cell already through [str]. *)
Abbreviation frame := (list (list pystr)).

Section Parser.
Context {U : Unicode}.

(** Truthiness of a [str | None]: [None] and the empty string are false. *)
Definition truthy (o : option pystr) : bool :=
  match o with
  | Some (_ :: _) => true
  | _ => false
  end.

(** [s or None] *)
Definition or_None (s : pystr) : option pystr :=
  match s with
  | [] => None
  | _ => Some s
  end.

Definition str_eqb (a b : pystr) : bool := bool_decide (a = b).

Fixpoint drop_while (p : N -> bool) (s : pystr) : pystr :=
  match s with
  | [] => []
  | c :: s' => if p c then drop_while p s' else s
  end.

(** [s.strip()] *)
Definition strip (s : pystr) : pystr :=
  reverse (drop_while isspace (reverse (drop_while isspace s))).

(** [s.startswith(p)] *)
Fixpoint startswith (s p : pystr) {struct p} : bool :=
  match p, s with
  | [], _ => true
  | _ :: _, [] => false
  | a :: p', b :: s' => (a =? b) && startswith s' p'
  end.

(** [s.endswith(p)] *)
Definition endswith (s p : pystr) : bool := startswith (reverse s) (reverse p).

(** [sub in s] *)
Fixpoint contains (sub s : pystr) : bool :=
  startswith s sub ||
  match s with
  | [] => false
  | _ :: s' => contains sub s'
  end.

(** [s.replace(c, new)] for a one-character [c], as at every call site. *)
Definition replace (c : N) (new : pystr) (s : pystr) : pystr :=
  flat_map (fun x => if x =? c then new else [x]) s.

(** [s.split(sep)] for a one-character separator. *)
Fixpoint split (sep : N) (s : pystr) : list pystr :=
  match s with
  | [] => [[]]
  | c :: s' =>
      if c =? sep then [] :: split sep s'
      else match split sep s' with
           | g :: gs => (c :: g) :: gs
           | [] => [[c]]
           end
  end.

(** [s.split()]: the maximal runs of non-whitespace characters. [cur] is the
    run being read, most recent character first. *)
Fixpoint split_ws_from (cur : pystr) (s : pystr) : list pystr :=
  match s with
  | [] => match cur with [] => [] | _ => [reverse cur] end
  | c :: s' =>
      if isspace c then
        match cur with
        | [] => split_ws_from [] s'
        | _ => reverse cur :: split_ws_from [] s'
        end
      else split_ws_from (c :: cur) s'
  end.

Definition split_ws (s : pystr) : list pystr := split_ws_from [] s.

(** [sep.join(parts)] *)
Fixpoint join (sep : pystr) (parts : list pystr) : pystr :=
  match parts with
  | [] => []
  | [p] => p
  | p :: ps => p ++ sep ++ join sep ps
  end.

(** [s.rsplit(sep, 1)] for a one-character separator: the text before and
    after the last separator, [None] when there is none (Python then gives
    a one-element list). [acc] is the text read so far, reversed. *)
Fixpoint rsplit1_from (sep : N) (acc : pystr) (s : pystr) : option (pystr * pystr) :=
  match s with
  | [] => None
  | c :: s' =>
      match rsplit1_from sep (c :: acc) s' with
      | Some r => Some r
      | None => if c =? sep then Some (reverse acc, s') else None
      end
  end.

Definition rsplit1 (sep : N) (s : pystr) : option (pystr * pystr) :=
  rsplit1_from sep [] s.

(** [int(s)] on a string of decimal digits. *)
Definition int (s : pystr) : Z :=
  fold_left (fun acc d => (10 * acc + decimal_value d)%Z) s 0%Z.

(** [enumerate(l)] *)
Fixpoint enumerate_from {A} (i : nat) (l : list A) : list (nat * A) :=
  match l with
  | [] => []
  | x :: l' => (i, x) :: enumerate_from (S i) l'
  end.

Definition enumerate {A} (l : list A) : list (nat * A) := enumerate_from 0 l.

(** ** Regular expressions

    The fragment of [re] syntax that the module's patterns use. Repetition
    is greedy and alternation ordered, as in Python; a group records the
    text its last successful match covered. *)
Inductive regex :=
| Eps
| Lit (c : N)                   (* a literal character *)
| Digit                         (* \d *)
| Space                         (* \s *)
| Bol                           (* ^ *)
| WordB                         (* \b *)
| Seq (r1 r2 : regex)
| Alt (r1 r2 : regex)           (* r1|r2 *)
| Star (r : regex)              (* r* *)
| Group (i : nat) (r : regex).  (* the i-th capturing group *)

(** [r+], [r?], [r{n}], a literal word, a sequence of items. *)
Definition Plus (r : regex) : regex := Seq r (Star r).
Definition Opt (r : regex) : regex := Alt r Eps.
Fixpoint Rep (n : nat) (r : regex) : regex :=
  match n with
  | O => Eps
  | S n' => Seq r (Rep n' r)
  end.
Definition Word (s : pystr) : regex := foldr (fun c r => Seq (Lit c) r) Eps s.
Definition Seqs (rs : list regex) : regex := foldr Seq Eps rs.

(** A matcher state: the text before the current position (nearest
    character first), the text from the current position on, and the groups
    captured so far. *)
Record mstate := MState {
  before : pystr;
  rest : pystr;
  caps : gmap nat pystr
}.

Definition advance (c : N) (s' : pystr) (st : mstate) : mstate :=
  MState (c :: before st) s' (caps st).

Definition step_if (p : N -> bool) (st : mstate) : list mstate :=
  match rest st with
  | c :: s' => if p c then [advance c s' st] else []
  | [] => []
  end.

Definition word_at (s : pystr) : bool :=
  match s with
  | c :: _ => isword c
  | [] => false
  end.

(** Greedy repetition of [body]: one more iteration first, then none. An
    iteration that consumes nothing ends the repetition, so [fuel] beyond
    the length of the remaining text is never used. *)
Fixpoint star_iter (body : mstate -> list mstate) (fuel : nat) (st : mstate)
  : list mstate :=
  match fuel with
  | O => [st]
  | S fuel' =>
      flat_map
        (fun st1 =>
           if (length (rest st1) <? length (rest st))%nat
           then star_iter body fuel' st1 else [])
        (body st)
      ++ [st]
  end.

(** [Group i] records the text between the position where the group was
    entered and the position where it was left. *)
Definition capture (i : nat) (st st1 : mstate) : mstate :=
  MState (before st1) (rest st1)
    (<[i := take (length (rest st) - length (rest st1)) (rest st)]> (caps st1)).

(** All the ways [r] matches at the state [st], in the order the
    backtracking matcher tries them; the head is the match Python reports.
    [ic] is [re.IGNORECASE]. *)
Fixpoint run (ic : bool) (r : regex) (st : mstate) : list mstate :=
  match r with
  | Eps => [st]
  | Lit c => step_if (fun x => if ic then eq_ignorecase c x else c =? x) st
  | Digit => step_if isdecimal st
  | Space => step_if isspace st
  | Bol => match before st with [] => [st] | _ => [] end
  | WordB => if xorb (word_at (before st)) (word_at (rest st)) then [st] else []
  | Seq r1 r2 => flat_map (run ic r2) (run ic r1 st)
  | Alt r1 r2 => run ic r1 st ++ run ic r2 st
  | Star r1 => star_iter (run ic r1) (S (length (rest st))) st
  | Group i r1 => map (capture i st) (run ic r1 st)
  end.

(** [binds i r]: every match of [r] goes through group [i]. *)
Fixpoint binds (i : nat) (r : regex) : bool :=
  match r with
  | Seq r1 r2 => binds i r1 || binds i r2
  | Alt r1 r2 => binds i r1 && binds i r2
  | Group j r1 => Nat.eqb i j || binds i r1
  | _ => false
  end.

(** [min_len r]: a number of characters that every match of [r] consumes. *)
Fixpoint min_len (r : regex) : nat :=
  match r with
  | Lit _ | Digit | Space => 1
  | Seq r1 r2 => min_len r1 + min_len r2
  | Alt r1 r2 => min_len r1 `min` min_len r2
  | Group _ r1 => min_len r1
  | _ => 0
  end.

(** A match object: [start()], [end()], [group(0)] and the numbered groups. *)
Record rmatch := RMatch {
  m_start : nat;
  m_end : nat;
  group0 : pystr;
  groups : gmap nat pystr
}.

(** [m.group(i)] for [i >= 1]: [None] when the group took no part. *)
Definition group (m : rmatch) (i : nat) : option pystr := groups m !! i.

Definition match_at (ic : bool) (r : regex) (pre s : pystr) : option rmatch :=
  match run ic r (MState pre s ∅) with
  | st :: _ =>
      Some (RMatch (length pre) (length (before st))
              (take (length s - length (rest st)) s) (caps st))
  | [] => None
  end.

Fixpoint search_from (ic : bool) (r : regex) (pre s : pystr) : option rmatch :=
  match match_at ic r pre s with
  | Some m => Some m
  | None =>
      match s with
      | [] => None
      | c :: s' => search_from ic r (c :: pre) s'
      end
  end.

(** [re.search(r, s)] and [re.match(r, s)]. *)
Definition re_search (ic : bool) (r : regex) (s : pystr) : option rmatch :=
  search_from ic r [] s.
Definition re_match (ic : bool) (r : regex) (s : pystr) : option rmatch :=
  match_at ic r [] s.

(** ** The patterns of the module *)

Definition two_digits : regex := Rep 2 Digit.
Definition hh_mm : regex := Seqs [two_digits; Lit (chr ":"); two_digits].

(** [TIME_RE = \((\d{2}:\d{2})\s*-\s*(\d{2}:\d{2})\)] *)
Definition TIME_RE : regex :=
  Seqs [Lit (chr "("); Group 1 hh_mm; Star Space; Lit (chr "-"); Star Space;
        Group 2 hh_mm; Lit (chr ")")].

(** [SESSION_RE = \b(\d{4})\s*-\s*(\d{4})\b] *)
Definition SESSION_RE : regex :=
  Seqs [WordB; Group 1 (Rep 4 Digit); Star Space; Lit (chr "-"); Star Space;
        Group 2 (Rep 4 Digit); WordB].

(** [SEMESTER_RE = Semester#\s*(\d+)] *)
Definition SEMESTER_RE : regex :=
  Seqs [Word (u "Semester#"); Star Space; Group 1 (Plus Digit)].

(** [^(BS|MS|PhD)\s+(?:in\s+)?], used with [re.IGNORECASE] *)
Definition DEGREE_RE : regex :=
  Seqs [Bol; Group 1 (Alt (Word (u "BS")) (Alt (Word (u "MS")) (Word (u "PhD"))));
        Plus Space; Opt (Seq (Word (u "in")) (Plus Space))].

(** [(Regular|Self Support)\s*\d+], used with [re.IGNORECASE] *)
Definition SECTION_RE : regex :=
  Seqs [Group 1 (Alt (Word (u "Regular")) (Word (u "Self Support")));
        Star Space; Plus Digit].

(** [^combined\s*\(\d+\)] *)
Definition COMBINED_RE : regex :=
  Seqs [Bol; Word (u "combined"); Star Space; Lit (chr "("); Plus Digit;
        Lit (chr ")")].

(** ** Line classification *)

(** [DAY_NAMES] *)
Definition DAY_NAMES : list pystr :=
  [u "Monday"; u "Tuesday"; u "Wednesday"; u "Thursday"; u "Friday";
   u "Saturday"; u "Sunday"].

(** [normalize_day]: the first day name the trimmed, lowercased text
    starts with. *)
Definition normalize_day (value : pystr) : option pystr :=
  let text := lower (strip value) in
  find (fun day => startswith text (lower day)) DAY_NAMES.

(** [TIME_RE.search(line)] as a condition *)
Definition has_time (line : pystr) : bool :=
  bool_decide (is_Some (re_search false TIME_RE line)).

(** [normalize_spacing] *)
Definition normalize_spacing (value : pystr) : pystr :=
  join (u " ") (split_ws value).

(** [is_combined_header] *)
Definition is_combined_header (value : pystr) : bool :=
  let text := lower (strip value) in
  if startswith text (u "combined class") then true
  else bool_decide (is_Some (re_match false COMBINED_RE text)).

(** The character U+2026, the one-character literal ["…"] of the source. *)
Definition ELLIPSIS : N := 8230.

(** The private-use characters U+F362 and U+F1F8 of two literals of the
    source: glyphs of the icon font of the documents, the first stamped in
    front of " swap", the second alone on a line. *)
Definition ICON_F362 : N := 62306.
Definition ICON_F1F8 : N := 61944.

(** [has_ellipsis] *)
Definition has_ellipsis (text : option pystr) : bool :=
  match text with
  | None => false
  | Some [] => false
  | Some t => contains [ELLIPSIS] t || endswith t (u "...")
  end.

(** [split_course_line]. The branch where [rsplit] finds no separator
    cannot be reached after the test ["#" not in course_line]. *)
Definition split_course_line (course_line : option pystr)
  : option pystr * option pystr :=
  match course_line with
  | None => (None, None)
  | Some [] => (None, None)
  | Some l =>
      if negb (contains (u "#") l) then (Some (strip l), None)
      else match rsplit1 (chr "#") l with
           | Some (left_, right_) => (or_None (strip left_), or_None (strip right_))
           | None => (None, None)
           end
  end.

(** ** Program lines *)

(** The first loop of [resolve_program_line]: a candidate that fails a
    constraint is skipped ([continue]); the first one that passes and
    starts with the non-empty prefix is returned. *)
Fixpoint resolve_first_pass (prefix : pystr) (session_value semester_value : option pystr)
    (reference_programs : list pystr) : option pystr :=
  match reference_programs with
  | [] => None
  | candidate :: more =>
      if truthy session_value
         && negb (contains (default [] session_value) candidate)
      then resolve_first_pass prefix session_value semester_value more
      else
        let candidate_compact := replace (chr " ") [] candidate in
        if truthy semester_value
           && negb (contains (default [] semester_value) candidate_compact)
        then resolve_first_pass prefix session_value semester_value more
        else if truthy (Some prefix) && startswith candidate prefix
        then Some candidate
        else resolve_first_pass prefix session_value semester_value more
  end.

(** The second loop. *)
Fixpoint resolve_second_pass (session_value semester_value : option pystr)
    (reference_programs : list pystr) : option pystr :=
  match reference_programs with
  | [] => None
  | candidate :: more =>
      if truthy session_value && contains (default [] session_value) candidate
      then
        if negb (truthy semester_value)
           || contains (default [] semester_value) (replace (chr " ") [] candidate)
        then Some candidate
        else resolve_second_pass session_value semester_value more
      else resolve_second_pass session_value semester_value more
  end.

Definition session_value_of (program_line : pystr) : option pystr :=
  group0 <$> re_search false SESSION_RE program_line.

Definition semester_value_of (program_line : pystr) : option pystr :=
  (fun m => replace (chr " ") [] (group0 m)) <$> re_search false SEMESTER_RE program_line.

Definition prefix_of (program_line : pystr) : pystr :=
  strip (replace ELLIPSIS [] program_line).

(** [resolve_program_line] *)
Definition resolve_program_line (program_line : pystr) (reference_programs : list pystr)
  : pystr :=
  let prefix := prefix_of program_line in
  let session_value := session_value_of program_line in
  let semester_value := semester_value_of program_line in
  match resolve_first_pass prefix session_value semester_value reference_programs with
  | Some candidate => candidate
  | None =>
      match resolve_second_pass session_value semester_value reference_programs with
      | Some candidate => candidate
      | None => program_line
      end
  end.

(** The five values [parse_program_fields] returns. *)
Record program_fields := ProgramFields {
  pf_degree : option pystr;
  pf_program : option pystr;
  pf_section : option pystr;
  pf_session : option pystr;
  pf_semester : option Z
}.

Definition no_fields : program_fields := ProgramFields None None None None None.

(** [cleaned] in [parse_program_fields] *)
Definition clean_program_line (program_line : pystr) : pystr :=
  join (u " ")
    (split_ws (replace (chr ")") (u " ) ") (replace (chr "(") (u " ( ") program_line))).

(** [parse_program_fields] *)
Definition parse_program_fields (program_line : option pystr) : program_fields :=
  match program_line with
  | None => no_fields
  | Some [] => no_fields
  | Some line =>
      let cleaned := clean_program_line line in
      match re_match true DEGREE_RE cleaned with
      | None => no_fields
      | Some degree_match =>
          let degree := group degree_match 1 in
          let remainder := drop (m_end degree_match) cleaned in
          let section_match := re_search true SECTION_RE remainder in
          let '(program, section) :=
            match section_match with
            | Some sm =>
                (or_None (strip (take (m_start sm) remainder)),
                 Some (normalize_spacing (group0 sm)))
            | None => (None, None)
            end in
          let session :=
            (fun m => replace (chr " ") [] (group0 m)) <$> re_search false SESSION_RE cleaned in
          let semester :=
            (fun m => int (default [] (group m 1))) <$> re_search false SEMESTER_RE cleaned in
          ProgramFields degree program section session semester
      end
  end.

(** A recognized degree token starts the normalized line: the condition
    under which [parse_program_fields] goes past its second [return]. *)
Definition has_degree_token (line : option pystr) : bool :=
  match line with
  | Some ((_ :: _) as l) =>
      bool_decide (is_Some (re_match true DEGREE_RE (clean_program_line l)))
  | _ => false
  end.

(** ** Sessions *)

(** The loop of [parse_session] that looks for the teacher line: the last
    line with a time range wins. The state is [(teacher_line, teacher_index)]. *)
Definition find_teacher (content_lines : list pystr) : option pystr * option nat :=
  fold_left
    (fun st '(idx, line) => if has_time line then (Some line, Some idx) else st)
    (enumerate content_lines) (None, None).

Definition is_practical (line : pystr) : bool :=
  str_eqb (lower (strip line)) (u "practical").

(** [parse_session] *)
Definition parse_session (raw_lines : list pystr) (reference_programs : list pystr)
    (resolve_truncated keep_truncated : bool) : ParsedSession :=
  let raw_lines_clean :=
    map strip (List.filter (fun line => truthy (Some (strip line))) raw_lines) in
  let content_lines := raw_lines_clean in
  let '(teacher_line, teacher_index) := find_teacher content_lines in
  let content_lines :=
    match teacher_index with
    | Some ti =>
        map snd (List.filter (fun '(idx, _) => negb (Nat.eqb idx ti))
                   (enumerate content_lines))
    | None => content_lines
    end in
  let practical := existsb is_practical content_lines in
  let content_lines := List.filter (fun line => negb (is_practical line)) content_lines in
  let meaningful_lines :=
    List.filter (fun line => negb (str_eqb line [ICON_F1F8])) content_lines in
  let '(combined_class, course_line, program_line) :=
    match meaningful_lines with
    | [] => (None, None, None)
    | first :: _ =>
        if is_combined_header first
        then (Some first, meaningful_lines !! 1%nat, meaningful_lines !! 2%nat)
        else (None, Some first, meaningful_lines !! 1%nat)
    end in
  let '(course_title, course_code) := split_course_line course_line in
  let course_truncated := has_ellipsis course_title in
  let raw_program_line := program_line in
  let program_truncated := has_ellipsis raw_program_line in
  let program_line :=
    if resolve_truncated && program_truncated && truthy raw_program_line then
      let resolved := resolve_program_line (default [] raw_program_line) reference_programs in
      if negb keep_truncated then Some resolved else program_line
    else program_line in
  let pf := parse_program_fields program_line in
  let '(teacher_name, start_time, end_time) :=
    if truthy teacher_line then
      let tl := default [] teacher_line in
      let time_match := re_search false TIME_RE tl in
      let '(start_time, end_time) :=
        match time_match with
        | Some m => (group m 1, group m 2)
        | None => (None, None)
        end in
      (or_None (strip (default [] (head (split (chr "(") tl)))), start_time, end_time)
    else (None, None, None) in
  let teacher_truncated := has_ellipsis teacher_name in
  Session combined_class course_title course_code course_truncated program_line
    program_truncated (pf_degree pf) (pf_program pf) (pf_section pf) (pf_session pf)
    (pf_semester pf) teacher_name teacher_truncated start_time end_time practical
    raw_lines_clean.

(** ** Cells *)

(** The comprehension at the top of [parse_cell]: the condition that keeps a
    line, with the constants as the source writes them. *)
Definition keep_line (line : pystr) : bool :=
  truthy (Some (strip line))
  && negb (str_eqb (lower (strip line)) (ICON_F362 :: u " swap"))
  && negb (startswith (lower (strip line)) (u "was:"))
  && negb (contains (u "delete") (lower (strip line))).

Definition cell_lines (cell_value : pystr) : list pystr :=
  let text := strip cell_value in
  match text with
  | [] => []
  | _ => map strip (List.filter keep_line (split (chr "010") text))
  end.

(** The grouping loop of [parse_cell]; the state is [(sessions, current)]. *)
Definition group_step (st : list (list pystr) * list pystr) (line : pystr)
  : list (list pystr) * list pystr :=
  let '(sessions, current) := st in
  let current := current ++ [line] in
  if has_time line then (sessions ++ [current], []) else (sessions, current).

Definition group_lines (lines : list pystr) : list (list pystr) :=
  let '(sessions, current) := fold_left group_step lines ([], []) in
  match current with
  | [] => sessions
  | _ => sessions ++ [current]
  end.

(** [parse_cell] *)
Definition parse_cell (cell_value : pystr) (reference_programs : list pystr)
    (resolve_truncated keep_truncated : bool) : list ParsedSession :=
  match cell_lines cell_value with
  | [] => []
  | lines =>
      map (fun session_lines =>
             parse_session session_lines reference_programs resolve_truncated keep_truncated)
          (group_lines lines)
  end.

(** ** The table walker: columns to days *)

(** One turn of the header loop of [parse_timetable]; the state is
    [(day_columns, last_day)]. *)
Definition header_step (st : gmap nat pystr * option pystr) (cell : nat * pystr)
  : gmap nat pystr * option pystr :=
  let '(day_columns, last_day) := st in
  let '(idx, value) := cell in
  match normalize_day value, last_day with
  | Some ((_ :: _) as day), _ => (<[idx := day]> day_columns, Some day)
  | _, Some ((_ :: _) as ld) =>
      if (0 <? idx)%nat && negb (truthy (Some value))
      then (<[idx := ld]> day_columns, last_day)
      else st
  | _, _ => st
  end.

(** [day_columns] once the loop has run over the header row. *)
Definition day_columns (header_row : list pystr) : gmap nat pystr :=
  let header := map strip header_row in
  fst (fold_left header_step (enumerate header) (∅, None)).

(** ** Semester inference *)

(** [build_semester_key] *)
Definition build_semester_key (s : ParsedSession) : option semester_key :=
  if negb (truthy (degree s)) || negb (truthy (program s))
     || negb (truthy (section s)) || negb (truthy (session s))
  then None
  else Some (normalize_spacing (default [] (degree s)),
             normalize_spacing (default [] (program s)),
             normalize_spacing (default [] (section s)),
             replace (chr " ") [] (default [] (session s))).

(** The body of the first loop; the state is [(semester_map, conflicts)]. *)
Definition record_semester (st : gmap semester_key Z * gset semester_key)
    (s : ParsedSession) : gmap semester_key Z * gset semester_key :=
  let '(semester_map, conflicts) := st in
  match build_semester_key s, semester s with
  | Some key, Some sem =>
      match semester_map !! key with
      | Some known =>
          if bool_decide (known ≠ sem)
          then (semester_map, {[key]} ∪ conflicts)
          else (<[key := sem]> semester_map, conflicts)
      | None => (<[key := sem]> semester_map, conflicts)
      end
  | _, _ => st
  end.

Definition first_pass (tt : timetable) : gmap semester_key Z * gset semester_key :=
  fold_left
    (fun st (day : pystr * rooms) =>
       fold_left
         (fun st (room : pystr * list ParsedSession) =>
            fold_left record_semester (snd room) st)
         (snd day) st)
    tt (∅, ∅).

(** [session["semester"] = inferred] *)
Definition set_semester (s : ParsedSession) (inferred : Z) : ParsedSession :=
  Session (combined_class s) (course_title s) (course_code s) (course_truncated s)
    (program_line s) (program_truncated s) (degree s) (program s) (section s)
    (session s) (Some inferred) (teacher_name s) (teacher_truncated s)
    (start_time s) (end_time s) (practical s) (raw_lines s).

(** The body of the second loop, as the new value of the session. *)
Definition fill_semester (st : gmap semester_key Z * gset semester_key)
    (s : ParsedSession) : ParsedSession :=
  let '(semester_map, conflicts) := st in
  match semester s with
  | Some _ => s
  | None =>
      match build_semester_key s with
      | None => s
      | Some key =>
          if bool_decide (key ∈ conflicts) then s
          else match semester_map !! key with
               | Some inferred => set_semester s inferred
               | None => s
               end
      end
  end.

(** [infer_missing_semesters]: the timetable after the in-place update. The
    sessions of a timetable built by [parse_timetable] are distinct
    dictionaries, one per [to_dict] call. *)
Definition infer_missing_semesters (tt : timetable) : timetable :=
  let st := first_pass tt in
  map (fun day : pystr * rooms =>
         (fst day,
          map (fun room : pystr * list ParsedSession =>
                 (fst room, map (fill_semester st) (snd room)))
              (snd day)))
      tt.

(** All the sessions of a timetable, in the order the loops visit them. *)
Definition sessions_of (tt : timetable) : list ParsedSession :=
  flat_map (fun day : pystr * rooms => flat_map snd (snd day)) tt.

(** ** The reference pool *)

(** The line boundaries of [str.splitlines], other than the pair CR LF. *)
Definition is_linebreak (c : N) : bool :=
  ((10 <=? c) && (c <=? 13)) || ((28 <=? c) && (c <=? 30))
  || (c =? 133) || (c =? 8232) || (c =? 8233).

(** [text.splitlines()]; [cur] is the line being read, most recent character
    first. CR LF ends one line, and a line break at the end of the text does
    not open a last, empty line. *)
Fixpoint splitlines_from (cur : pystr) (text : pystr) : list pystr :=
  match text with
  | [] => match cur with [] => [] | _ => [reverse cur] end
  | c :: rest_ =>
      if c =? 13 then
        match rest_ with
        | c' :: rest' =>
            if c' =? 10 then reverse cur :: splitlines_from [] rest'
            else reverse cur :: splitlines_from [] rest_
        | [] => reverse cur :: splitlines_from [] rest_
        end
      else if is_linebreak c then reverse cur :: splitlines_from [] rest_
      else splitlines_from (c :: cur) rest_
  end.

Definition splitlines (text : pystr) : list pystr := splitlines_from [] text.

(** The loop of [extract_program_lines] over the text of the first page
    (the empty text when the document has no page or cannot be read). *)
Definition extract_program_lines (text : pystr) : list pystr :=
  List.filter
    (fun line =>
       truthy (Some line)
       && bool_decide (is_Some (re_search false SESSION_RE line))
       && bool_decide (is_Some (re_search false SEMESTER_RE line)))
    (map strip (splitlines text)).

(** ** The table walker: header row, rooms and cells *)

(** The score of a row in [find_header_row]: how many of its cells name a
    day. *)
Definition day_score (row : list pystr) : nat :=
  length (List.filter (fun value => truthy (normalize_day value)) (map strip row)).

(** One turn of the loop of [find_header_row]; the state is
    [(best_row, best_score)]. *)
Definition header_scan (st : nat * nat) (r : nat * list pystr) : nat * nat :=
  let '(best_row, best_score) := st in
  let '(row_index, row) := r in
  let score := day_score row in
  if (best_score <? score)%nat then (row_index, score) else st.

(** [find_header_row] *)
Definition find_header_row (df : frame) : nat :=
  let max_rows := (length df `min` 10)%nat in
  fst (fold_left header_scan (enumerate (take max_rows df)) (0%nat, 0%nat)).

(** [day_columns.items()]: the columns are entered in increasing order, each
    once, so the dictionary is read in the order of the columns. *)
Definition day_column_items (header_row : list pystr) : list (nat * pystr) :=
  omap (fun idx => (fun day => (idx, day)) <$> day_columns header_row !! idx)
       (seq 0 (length header_row)).

(** [d.setdefault(k, dflt)] followed by an update [f] of the value in
    place, on a dictionary in insertion order. *)
Fixpoint setdefault_then {V} (f : V -> V) (dflt : V) (k : pystr)
    (d : list (pystr * V)) : list (pystr * V) :=
  match d with
  | [] => [(k, f dflt)]
  | (k', v) :: d' =>
      if str_eqb k' k then (k', f v) :: d'
      else (k', v) :: setdefault_then f dflt k d'
  end.

(** [s.lower() == "nan"] *)
Definition is_nan (s : pystr) : bool := str_eqb (lower s) (u "nan").

(** The room of a row, [None] when the row is skipped ([continue]), and the
    new value of [last_room]. *)
Definition room_of_row (row : list pystr) (last_room : option pystr)
  : option pystr * option pystr :=
  match row with
  | [] => (None, last_room)
  | first :: others =>
      let room := strip (normalize_spacing (replace (chr "010") (u " ") first)) in
      let room := if is_nan room then [] else room in
      match room with
      | [] =>
          let has_content :=
            existsb (fun cell => truthy (Some (strip cell)) && negb (is_nan (strip cell)))
                    others in
          if has_content && truthy last_room then (last_room, last_room)
          else (None, last_room)
      | _ => (Some room, Some room)
      end
  end.

(** One turn of the loop over [day_columns.items()]; the state is
    [day_values]. *)
Definition collect_cell (row : list pystr) (day_values : list (pystr * list pystr))
    (col : nat * pystr) : list (pystr * list pystr) :=
  let '(col_idx, day) := col in
  match row !! col_idx with
  | None => day_values
  | Some cell_value =>
      if is_nan cell_value then day_values
      else match strip cell_value with
           | [] => day_values
           | cell => setdefault_then (fun parts => parts ++ [cell]) [] day day_values
           end
  end.

(** One turn of the loop over [day_values.items()]; the state is the
    timetable. *)
Definition add_cell (room : pystr) (reference_programs : list pystr)
    (resolve_truncated keep_truncated : bool) (tt : timetable)
    (dv : pystr * list pystr) : timetable :=
  let '(day, parts) := dv in
  let cell_value := join [chr "010"] parts in
  match parse_cell cell_value reference_programs resolve_truncated keep_truncated with
  | [] => tt
  | sessions =>
      setdefault_then (setdefault_then (fun l => l ++ sessions) [] room) [] day tt
  end.

(** One turn of the loop over the rows below the header; the state is
    [(last_room, timetable)]. *)
Definition row_step (columns : list (nat * pystr)) (reference_programs : list pystr)
    (resolve_truncated keep_truncated : bool)
    (st : option pystr * timetable) (row : list pystr) : option pystr * timetable :=
  let '(last_room, built) := st in
  match room_of_row row last_room with
  | (None, last_room) => (last_room, built)
  | (Some room, last_room) =>
      let day_values := fold_left (collect_cell row) columns [] in
      (last_room,
       fold_left (add_cell room reference_programs resolve_truncated keep_truncated)
                 day_values built)
  end.

(** [df.empty]: no row, or no column. *)
Definition df_empty (df : frame) : bool :=
  match df with
  | [] => true
  | [] :: _ => true
  | _ => false
  end.

(** One turn of the loop over the tables. *)
Definition walk_table (reference_programs : list pystr)
    (resolve_truncated keep_truncated : bool) (tt : timetable) (df : frame)
  : timetable :=
  if df_empty df then tt
  else
    let header_row := find_header_row df in
    let columns := day_column_items (default [] (df !! header_row)) in
    snd (fold_left (row_step columns reference_programs resolve_truncated keep_truncated)
           (drop (S header_row) df) (None, tt)).

(** [parse_timetable], from the tables and the reference lines that the
    extractors return to the timetable it builds (before the timestamp is
    put beside the days). *)
Definition parse_timetable (tables : list frame) (extracted_programs : list pystr)
    (resolve_truncated keep_truncated : bool) : timetable :=
  let reference_programs := if resolve_truncated then extracted_programs else [] in
  infer_missing_semesters
    (fold_left (walk_table reference_programs resolve_truncated keep_truncated)
               tables []).

End Parser.

(** ** Vocabulary of the statements *)

Section Vocabulary.
Context {U : Unicode}.

(** A group closed by a time-range line: the line is last, and the only one. *)
Definition closed_group (g : list pystr) : Prop :=
  ∃ body t, g = body ++ [t] ∧ has_time t = true ∧
            Forall (λ l, has_time l = false) body.

(** A trailing group: some lines, none with a time range. *)
Definition trailing_group (g : list pystr) : Prop :=
  g ≠ [] ∧ Forall (λ l, has_time l = false) g.

(** Whether lines remain after the last time-range line. *)
Definition trailing_count (lines : list pystr) : nat :=
  match last lines with
  | Some l => if has_time l then 0 else 1
  | None => 0
  end.

(** The grouping as a recursion from the left; [cur] is the open group. *)
Fixpoint groups_from (cur : list pystr) (lines : list pystr) : list (list pystr) :=
  match lines with
  | [] => match cur with [] => [] | _ => [cur] end
  | l :: ls =>
      if has_time l then (cur ++ [l]) :: groups_from [] ls
      else groups_from (cur ++ [l]) ls
  end.

(** The degree tokens of [DEGREE_RE]. *)
Definition DEGREES : list pystr := [u "BS"; u "MS"; u "PhD"].

(** [text] matches the word [w] character by character, whatever the case. *)
Definition matches_ignorecase (w text : pystr) : Prop :=
  Forall2 (λ a b, eq_ignorecase a b = true) w text.

(** A text that starts with a degree token, in any case, followed by a
    whitespace character. *)
Definition starts_with_degree (s : pystr) : Prop :=
  ∃ token text c r,
    token ∈ DEGREES ∧ s = text ++ c :: r ∧ matches_ignorecase token text ∧
    isspace c = true.

(** A recognized degree token starts the normalized program line. *)
Definition degree_token_at_start (line : option pystr) : Prop :=
  ∃ l, line = Some l ∧ starts_with_degree (clean_program_line l).

(** The lines that the filter of [parse_cell] drops: the blank ones, the
    swap stamp, the lines that start with "was:" and those that contain
    "delete", all on the trimmed, lowercased text. *)
Definition discarded (line : pystr) : Prop :=
  strip line = [] ∨
  lower (strip line) = ICON_F362 :: u " swap" ∨
  startswith (lower (strip line)) (u "was:") = true ∨
  contains (u "delete") (lower (strip line)) = true.

(** The noise lines in the words of the specification: the trimmed,
    lowercased text is "swap", starts with "was:" or contains "delete". *)
Definition is_noise (line : pystr) : bool :=
  let text := lower (strip line) in
  str_eqb text (u "swap") || startswith text (u "was:") || contains (u "delete") text.

(** The first-pass predicate of the resolver in the words of the
    specification: the candidate starts with the prefix and contains the
    session and semester tokens of the line, when the line has them. *)
Definition first_pass_spec (line candidate : pystr) : bool :=
  startswith candidate (prefix_of line)
  && match session_value_of line with
     | Some v => contains v candidate
     | None => true
     end
  && match semester_value_of line with
     | Some v => contains v (replace (chr " ") [] candidate)
     | None => true
     end.

(** What the first loop tests: the same, for a non-empty prefix. *)
Definition first_pass_ok (line candidate : pystr) : bool :=
  negb (str_eqb (prefix_of line) []) && first_pass_spec line candidate.

(** What the second loop tests: the line has a session token, the candidate
    contains it, and contains the semester token when the line has one. *)
Definition second_pass_ok (line candidate : pystr) : bool :=
  match session_value_of line with
  | Some v =>
      contains v candidate
      && match semester_value_of line with
         | Some w => contains w (replace (chr " ") [] candidate)
         | None => true
         end
  | None => false
  end.

(** The most recent day named among the cells [l] of a header row. *)
Fixpoint last_day_seen (l : list pystr) : option pystr :=
  match l with
  | [] => None
  | value :: l' =>
      match last_day_seen l' with
      | Some day => Some day
      | None => normalize_day value
      end
  end.

(** The concrete semesters that the sessions [l] carrying the key [k]
    have, in the order of [l]. *)
Definition semesters_of (k : semester_key) (l : list ParsedSession) : list Z :=
  omap (λ t, if decide (build_semester_key t = Some k) then semester t else None) l.

(** Two sessions agree on every field other than [semester]. *)
Definition same_other_fields (s s' : ParsedSession) : Prop :=
  combined_class s' = combined_class s ∧ course_title s' = course_title s ∧
  course_code s' = course_code s ∧ course_truncated s' = course_truncated s ∧
  program_line s' = program_line s ∧ program_truncated s' = program_truncated s ∧
  degree s' = degree s ∧ program s' = program s ∧ section s' = section s ∧
  session s' = session s ∧ teacher_name s' = teacher_name s ∧
  teacher_truncated s' = teacher_truncated s ∧ start_time s' = start_time s ∧
  end_time s' = end_time s ∧ practical s' = practical s ∧
  raw_lines s' = raw_lines s.

(** What the inference may do to one session: nothing, or give a semester
    to a session that had none. *)
Definition semester_filled (s s' : ParsedSession) : Prop :=
  same_other_fields s s' ∧ (semester s' = semester s ∨ semester s = None).

(** The same rooms in the same order, with sessions related one by one. *)
Definition rooms_framed (day day' : pystr * rooms) : Prop :=
  fst day' = fst day ∧
  Forall2 (λ room room' : pystr * list ParsedSession,
             fst room' = fst room ∧ Forall2 semester_filled (snd room) (snd room'))
          (snd day) (snd day').

(** [mentions i r]: the group [i] occurs in [r]. *)
Fixpoint mentions (i : nat) (r : regex) : bool :=
  match r with
  | Seq r1 r2 | Alt r1 r2 => mentions i r1 || mentions i r2
  | Star r1 => mentions i r1
  | Group j r1 => Nat.eqb i j || mentions i r1
  | _ => false
  end.

(** A time of day as [TIME_RE] captures it: two digits, a colon, two digits. *)
Definition is_hh_mm (t : pystr) : Prop :=
  ∃ d1 d2 d3 d4,
    t = [d1; d2; chr ":"; d3; d4] ∧
    isdecimal d1 = true ∧ isdecimal d2 = true ∧
    isdecimal d3 = true ∧ isdecimal d4 = true.

(** A text without whitespace at either end, and not empty. *)
Definition trimmed (l : pystr) : Prop := l ≠ [] ∧ strip l = l.

(** The invariant of the timetable that the walker builds: no day and no
    room occurs twice as a key, the days are day names, no room name is
    empty, no day is without rooms and no room without sessions, and every
    session has the lines it was read from. *)
Definition room_ok (room : pystr * list ParsedSession) : Prop :=
  fst room ≠ [] ∧ snd room ≠ [] ∧ Forall (λ s, raw_lines s ≠ []) (snd room).

Definition day_ok (day : pystr * rooms) : Prop :=
  fst day ∈ DAY_NAMES ∧ NoDup (map fst (snd day)) ∧ snd day ≠ [] ∧
  Forall room_ok (snd day).

Definition well_formed (timetable_ : timetable) : Prop :=
  NoDup (map fst timetable_) ∧ Forall day_ok timetable_.

(** Every session of a timetable satisfies [Q]. *)
Definition all_sessions (Q : ParsedSession → Prop) (timetable_ : timetable) : Prop :=
  Forall (λ day : pystr * rooms,
            Forall (λ room : pystr * list ParsedSession, Forall Q (snd room)) (snd day))
         timetable_.

(** A word of [str.split]: some characters, none of them whitespace. *)
Definition is_word_of_split (w : pystr) : Prop :=
  w ≠ [] ∧ Forall (λ c, isspace c = false) w.

End Vocabulary.

(** The fields of a session that scenario B names. *)
Definition scenario_fields (s : ParsedSession) :=
  (course_title s, course_code s, degree s, program s, section s, session s,
   semester s, teacher_name s, start_time s, end_time s).

(** The cell of scenario B: three lines joined by newlines. *)
Definition scenario_B_cell : pystr :=
  join [chr "010"]
    [u "BS Computer Science # CS101";
     u "BS Computer Science (Regular 1) 2021-2025 Semester# 3";
     u "Dr. Smith (09:00 - 10:30)"].


(** A session of the class of scenario D, with the semester [sem]. *)
Definition scenario_D_session (sem : option Z) : ParsedSession :=
  Session None (Some (u "Algorithms")) (Some (u "CS201")) false
    (Some (u "BS Computer Science (Regular 1) 2021-2025")) false
    (Some (u "BS")) (Some (u "Computer Science")) (Some (u "Regular 1"))
    (Some (u "2021-2025")) sem (Some (u "Dr. Smith")) false
    (Some (u "09:00")) (Some (u "10:30")) false
    [u "Algorithms # CS201"; u "BS Computer Science (Regular 1) 2021-2025";
     u "Dr. Smith (09:00 - 10:30)"].

(** * Properties *)

(** ** Strings *)

Lemma startswith_spec (s p : pystr) :
  startswith s p = true ↔ ∃ r, s = p ++ r.
Proof.
  revert s; induction p as [|a p IH]; intros s; simpl.
  - split; [intros _; by exists s | done].
  - destruct s as [|b s]; simpl.
    + split; [done | intros [r Hr]; discriminate].
    + rewrite andb_true_iff, N.eqb_eq, IH. split.
      * intros [-> [r ->]]. by exists r.
      * intros [r Hr]. injection Hr as -> ->. eauto.
Qed.

Lemma contains_spec (sub s : pystr) :
  contains sub s = true ↔ ∃ a b, s = a ++ sub ++ b.
Proof.
  induction s as [|c s IH]; simpl.
  - rewrite orb_false_r, startswith_spec. split.
    + intros [r Hr]. by exists [], r.
    + intros (a & b & Hab). destruct a; [by exists b | discriminate].
  - rewrite orb_true_iff, startswith_spec, IH. split.
    + intros [[r Hr] | (a & b & ->)].
      * by exists [], r.
      * by exists (c :: a), b.
    + intros (a & b & Hab). destruct a as [|x a]; simpl in Hab.
      * left. by exists b.
      * right. injection Hab as -> ->. by exists a, b.
Qed.

Lemma endswith_spec (s p : pystr) :
  endswith s p = true ↔ ∃ a, s = a ++ p.
Proof.
  unfold endswith. rewrite startswith_spec. split.
  - intros [r Hr]. exists (reverse r).
    apply (inj reverse). by rewrite Hr, reverse_app, reverse_involutive.
  - intros [a ->]. exists (reverse a). by rewrite reverse_app.
Qed.

Lemma ellipsis_literal : u "…" = [ELLIPSIS].
Proof. reflexivity. Qed.

(** ** Truncation detection *)

(** C6, amended. [has_ellipsis] holds of exactly the non-empty strings that
    contain the character "…" at any position or end with three dots; it is
    false of [None] and of the empty string. It is true of "Foo…" and of
    "Foo...", and false of "Foo". *)
Theorem has_ellipsis_char_anywhere_or_dots_at_end :
  (∀ text : option pystr,
     has_ellipsis text = true ↔
     ∃ t, text = Some t ∧
          ((∃ a b, t = a ++ [ELLIPSIS] ++ b) ∨ (∃ a, t = a ++ u "..."))) ∧
  has_ellipsis (Some (u "Foo…")) = true ∧
  has_ellipsis (Some (u "Foo...")) = true ∧
  has_ellipsis (Some (u "Foo")) = false ∧
  has_ellipsis None = false ∧
  has_ellipsis (Some []) = false.
Proof.
  split; [|by repeat split].
  intros [t|]; simpl.
  - destruct t as [|c t].
    + split; [done|]. intros (t & [= <-] & [(a & b & H) | (a & H)]);
        by destruct a.
    + rewrite orb_true_iff, contains_spec, endswith_spec. split.
      * intros H. by exists (c :: t).
      * by intros (t' & [= <-] & H).
  - split; [done | by intros (t & ? & _)].
Qed.

(** C6, as stated, fails: "Foo…bar" does not end with the ellipsis character
    nor with three dots, and [has_ellipsis] is true of it. *)
Lemma has_ellipsis_not_only_at_end :
  ¬ (has_ellipsis (Some (u "Foo…bar")) = true ↔
     (∃ a, u "Foo…bar" = a ++ [ELLIPSIS]) ∨ (∃ a, u "Foo…bar" = a ++ u "...")).
Proof.
  intros [H _]. specialize (H eq_refl).
  rewrite <- !endswith_spec in H. by destruct H.
Qed.

(** ** The matcher and its groups *)

Section Matcher.
Context {U : Unicode}.

Lemma step_if_caps p st st' : st' ∈ step_if p st → caps st' = caps st.
Proof.
  unfold step_if. destruct (rest st) as [|c s']; [by intros ?%elem_of_nil|].
  destruct (p c); [|by intros ?%elem_of_nil].
  by intros ->%list_elem_of_singleton.
Qed.

Lemma star_iter_keeps body i :
  (∀ st st', st' ∈ body st → is_Some (caps st !! i) → is_Some (caps st' !! i)) →
  ∀ fuel st st', st' ∈ star_iter body fuel st →
    is_Some (caps st !! i) → is_Some (caps st' !! i).
Proof.
  intros Hbody fuel. induction fuel as [|fuel IH]; intros st st'; simpl.
  - by intros ->%list_elem_of_singleton.
  - rewrite elem_of_app, list_elem_of_singleton, list_elem_of_In, in_flat_map.
    intros [(st1 & H1 & H2) | ->] Hi; [|done].
    apply list_elem_of_In in H1, H2.
    destruct (_ <? _)%nat; [|by apply elem_of_nil in H2].
    eapply IH; [done|]. by eapply Hbody.
Qed.

(** A match never forgets a group, and sets the groups it goes through. *)
Lemma run_caps ic i r :
  ∀ st st', st' ∈ run ic r st →
    (is_Some (caps st !! i) → is_Some (caps st' !! i)) ∧
    (binds i r = true → is_Some (caps st' !! i)).
Proof.
  induction r as [|c| | | | |r1 IH1 r2 IH2|r1 IH1 r2 IH2|r1 IH1|j r1 IH1];
    intros st st'; simpl.
  - by intros ->%list_elem_of_singleton.
  - by intros ->%step_if_caps.
  - by intros ->%step_if_caps.
  - by intros ->%step_if_caps.
  - destruct (before st); [|by intros ?%elem_of_nil].
    by intros ->%list_elem_of_singleton.
  - destruct (xorb _ _); [|by intros ?%elem_of_nil].
    by intros ->%list_elem_of_singleton.
  - rewrite list_elem_of_In, in_flat_map.
    intros (st1 & H1%list_elem_of_In & H2%list_elem_of_In).
    destruct (IH1 _ _ H1) as [K1 B1], (IH2 _ _ H2) as [K2 B2].
    split; [tauto|]. rewrite orb_true_iff. tauto.
  - rewrite elem_of_app, andb_true_iff.
    intros [H|H]; [destruct (IH1 _ _ H) | destruct (IH2 _ _ H)]; tauto.
  - intros H. split; [|done]. revert H.
    apply (star_iter_keeps (run ic r1) i (λ a b Hab, proj1 (IH1 a b Hab))
             (S (length (rest st)))).
  - rewrite list_elem_of_fmap. intros (st1 & -> & H1).
    destruct (IH1 _ _ H1) as [K1 B1]. simpl.
    destruct (decide (j = i)) as [->|Hne].
    + rewrite lookup_insert_eq. split; eauto.
    + rewrite lookup_insert_ne by done. split; [done|].
      rewrite orb_true_iff. intros [E%Nat.eqb_eq|E]; [congruence | auto].
Qed.

Lemma match_at_binds ic r pre s m i :
  match_at ic r pre s = Some m → binds i r = true → is_Some (group m i).
Proof.
  unfold match_at, group.
  destruct (run ic r _) as [|st l] eqn:E; [done|]. intros [= <-] Hb. simpl.
  eapply run_caps; [|exact Hb]. rewrite E. apply list_elem_of_here.
Qed.

Lemma search_from_binds ic r s : ∀ pre m i,
  search_from ic r pre s = Some m → binds i r = true → is_Some (group m i).
Proof.
  induction s as [|c s IH]; intros pre m i; simpl;
    destruct (match_at ic r pre _) eqn:E; try done.
  - intros [= <-]. by eapply match_at_binds.
  - intros [= <-]. by eapply match_at_binds.
  - apply IH.
Qed.

Lemma re_search_binds ic r s m i :
  re_search ic r s = Some m → binds i r = true → is_Some (group m i).
Proof. apply search_from_binds. Qed.

Lemma step_if_rest p st st' :
  st' ∈ step_if p st → ∃ c, rest st = c :: rest st'.
Proof.
  unfold step_if. destruct (rest st) as [|c s']; [by intros ?%elem_of_nil|].
  destruct (p c); [|by intros ?%elem_of_nil].
  intros ->%list_elem_of_singleton. by exists c.
Qed.

Lemma star_iter_rest body :
  (∀ st st', st' ∈ body st → ∃ k, rest st = k ++ rest st') →
  ∀ fuel st st', st' ∈ star_iter body fuel st → ∃ k, rest st = k ++ rest st'.
Proof.
  intros Hbody fuel. induction fuel as [|fuel IH]; intros st st'; simpl.
  - intros ->%list_elem_of_singleton. by exists [].
  - rewrite elem_of_app, list_elem_of_singleton, list_elem_of_In, in_flat_map.
    intros [(st1 & H1 & H2) | ->]; [|by exists []].
    apply list_elem_of_In in H1, H2.
    destruct (_ <? _)%nat; [|by apply elem_of_nil in H2].
    destruct (Hbody _ _ H1) as [k1 E1], (IH _ _ H2) as [k2 E2].
    exists (k1 ++ k2). by rewrite E1, E2, app_assoc.
Qed.

(** A match consumes a piece of the text, of at least [min_len r] characters. *)
Lemma run_rest ic r :
  ∀ st st', st' ∈ run ic r st →
    ∃ k, rest st = k ++ rest st' ∧ (min_len r ≤ length k)%nat.
Proof.
  induction r as [|c| | | | |r1 IH1 r2 IH2|r1 IH1 r2 IH2|r1 IH1|j r1 IH1];
    intros st st'; simpl.
  - intros ->%list_elem_of_singleton. by exists [].
  - intros [c' E]%step_if_rest. exists [c']. by rewrite E.
  - intros [c' E]%step_if_rest. exists [c']. by rewrite E.
  - intros [c' E]%step_if_rest. exists [c']. by rewrite E.
  - destruct (before st); [|by intros ?%elem_of_nil].
    intros ->%list_elem_of_singleton. by exists [].
  - destruct (xorb _ _); [|by intros ?%elem_of_nil].
    intros ->%list_elem_of_singleton. by exists [].
  - rewrite list_elem_of_In, in_flat_map.
    intros (st1 & H1%list_elem_of_In & H2%list_elem_of_In).
    destruct (IH1 _ _ H1) as (k1 & E1 & L1), (IH2 _ _ H2) as (k2 & E2 & L2).
    exists (k1 ++ k2). rewrite E1, E2, app_assoc, length_app. split; [done | lia].
  - rewrite elem_of_app.
    intros [H|H]; [destruct (IH1 _ _ H) as (k & E & L)
                  | destruct (IH2 _ _ H) as (k & E & L)];
      exists k; split; [done | lia | done | lia].
  - intros H.
    destruct (star_iter_rest (run ic r1)
                (λ a b Hab, let '(ex_intro _ k (conj E _)) := IH1 a b Hab in
                            ex_intro _ k E)
                (S (length (rest st))) st st' H) as [k E].
    exists k. split; [done | lia].
  - rewrite list_elem_of_fmap. intros (st1 & -> & H1). exact (IH1 _ _ H1).
Qed.

Lemma elem_of_flat_map {A B} (f : A → list B) (l : list A) (y : B) :
  y ∈ flat_map f l ↔ ∃ x, x ∈ l ∧ y ∈ f x.
Proof.
  rewrite list_elem_of_In, in_flat_map.
  by setoid_rewrite list_elem_of_In.
Qed.

Lemma elem_of_step_if p st st' :
  st' ∈ step_if p st ↔
  ∃ c s', rest st = c :: s' ∧ p c = true ∧ st' = advance c s' st.
Proof.
  unfold step_if. destruct (rest st) as [|c s'].
  - split; [by intros ?%elem_of_nil | by intros (? & ? & ? & _)].
  - destruct (p c) eqn:Ep.
    + rewrite list_elem_of_singleton. split; [by exists c, s'|].
      by intros (? & ? & [= <- <-] & _ & ->).
    + split; [by intros ?%elem_of_nil|].
      intros (? & ? & [= <- <-] & ? & _). congruence.
Qed.

Lemma elem_of_run_seq ic r1 r2 st st' :
  st' ∈ run ic (Seq r1 r2) st ↔ ∃ st1, st1 ∈ run ic r1 st ∧ st' ∈ run ic r2 st1.
Proof. apply elem_of_flat_map. Qed.

Lemma elem_of_run_alt ic r1 r2 st st' :
  st' ∈ run ic (Alt r1 r2) st ↔ st' ∈ run ic r1 st ∨ st' ∈ run ic r2 st.
Proof. apply elem_of_app. Qed.

Lemma elem_of_run_group ic i r st st' :
  st' ∈ run ic (Group i r) st ↔ ∃ st1, st' = capture i st st1 ∧ st1 ∈ run ic r st.
Proof. apply list_elem_of_fmap. Qed.

Lemma elem_of_run_eps ic st st' : st' ∈ run ic Eps st ↔ st' = st.
Proof. apply list_elem_of_singleton. Qed.

Lemma elem_of_run_bol ic st st' :
  st' ∈ run ic Bol st ↔ before st = [] ∧ st' = st.
Proof.
  simpl. destruct (before st).
  - rewrite list_elem_of_singleton. tauto.
  - split; [by intros ?%elem_of_nil | by intros [? _]].
Qed.

(** Zero iterations are always among the matches of a repetition. *)
Lemma run_star_self ic r st : st ∈ run ic (Star r) st.
Proof. simpl. apply elem_of_app. right. apply list_elem_of_here. Qed.

(** The matches of a literal word under [re.IGNORECASE]. *)
Lemma elem_of_run_word w : ∀ st st',
  st' ∈ run true (Word w) st ↔
  ∃ text r, rest st = text ++ r ∧ matches_ignorecase w text ∧
            st' = MState (reverse text ++ before st) r (caps st).
Proof.
  unfold matches_ignorecase.
  induction w as [|a w IH]; intros st st'.
  - change (Word []) with Eps. rewrite elem_of_run_eps. split.
    + intros ->. exists [], (rest st). split; [done|]. split; [constructor|].
      by destruct st.
    + intros (text & r & E & H & ->). inversion H; subst. simpl in *. subst.
      by destruct st.
  - change (Word (a :: w)) with (Seq (Lit a) (Word w)). rewrite elem_of_run_seq. split.
    + intros (st1 & H1 & H2). apply elem_of_step_if in H1 as (c & s' & E & Hc & ->).
      apply IH in H2 as (text & r & E' & H & ->). simpl in *.
      exists (c :: text), r. rewrite E, E'. split; [done|]. split; [by constructor|].
      by rewrite reverse_cons, <- app_assoc.
    + intros (text & r & E & H & ->). inversion H as [|? c ? text' Hc H']; subst.
      exists (advance c (text' ++ r) st). split.
      * apply elem_of_step_if. by exists c, (text' ++ r).
      * apply IH. exists text', r. simpl. split; [done|]. split; [done|].
        by rewrite reverse_cons, <- app_assoc.
Qed.

Lemma match_at_is_Some ic r pre s :
  is_Some (match_at ic r pre s) ↔ ∃ st, st ∈ run ic r (MState pre s ∅).
Proof.
  unfold match_at. destruct (run ic r _) as [|st l].
  - split; [by intros [? ?] | by intros [? ?%elem_of_nil]].
  - split; [|by eauto]. intros _. exists st. apply list_elem_of_here.
Qed.

(** [DEGREE_RE] matches at the start of exactly the texts that start with a
    degree token, in any case, and a whitespace character. *)
Lemma degree_match_spec s :
  is_Some (re_match true DEGREE_RE s) ↔ starts_with_degree s.
Proof.
  unfold re_match. rewrite match_at_is_Some.
  unfold DEGREE_RE, Seqs, Plus, Opt. cbn [foldr]. split.
  - intros (st & H).
    apply elem_of_run_seq in H as (st0 & [_ ->]%elem_of_run_bol & H).
    apply elem_of_run_seq in H as (st1 & H1 & H).
    apply elem_of_run_seq in H as (st2 & H2 & _).
    apply elem_of_run_group in H1 as (sta & -> & Ha).
    apply elem_of_run_seq in H2 as (stb & Hb & _).
    apply elem_of_step_if in Hb as (c & s' & Ec & Hc & _). simpl in Ec.
    assert (Hw : ∃ token, token ∈ DEGREES ∧ sta ∈ run true (Word token) (MState [] s ∅)).
    { apply elem_of_run_alt in Ha as [Ha|Ha]; [exists (u "BS"); split; [set_solver|done]|].
      apply elem_of_run_alt in Ha as [Ha|Ha];
        [exists (u "MS") | exists (u "PhD")]; (split; [set_solver|done]). }
    destruct Hw as (token & Htok & Hw).
    apply elem_of_run_word in Hw as (text & r & E & Hm & ->). simpl in *. subst.
    by exists token, text, c, s'.
  - intros (token & text & c & r & Htok & -> & Hm & Hc).
    set (st0 := MState [] (text ++ c :: r) ∅).
    set (sta := MState (reverse text ++ []) (c :: r) ∅).
    set (stb := advance c r (capture 1 st0 sta)).
    exists stb.
    apply elem_of_run_seq. exists st0. split; [by apply elem_of_run_bol|].
    apply elem_of_run_seq. exists (capture 1 st0 sta). split.
    { apply elem_of_run_group. exists sta. split; [done|].
      assert (Hw : sta ∈ run true (Word token) st0).
      { apply elem_of_run_word. by exists text, (c :: r). }
      unfold DEGREES in Htok.
      apply elem_of_cons in Htok as [->|Htok]; [by apply elem_of_run_alt; left|].
      apply elem_of_cons in Htok as [->|Htok];
        [by apply elem_of_run_alt; right; apply elem_of_run_alt; left|].
      apply list_elem_of_singleton in Htok as ->.
      by apply elem_of_run_alt; right; apply elem_of_run_alt; right. }
    apply elem_of_run_seq. exists stb. split.
    { apply elem_of_run_seq. exists stb. split; [|apply run_star_self].
      apply elem_of_step_if. by exists c, r. }
    apply elem_of_run_seq. exists stb. split; [|by apply elem_of_run_eps].
    apply elem_of_run_alt. right. by apply elem_of_run_eps.
Qed.

Lemma match_at_group0 ic r pre s m :
  match_at ic r pre s = Some m → (min_len r ≤ length (group0 m))%nat.
Proof.
  unfold match_at.
  destruct (run ic r _) as [|st l] eqn:E; [done|]. intros [= <-]. simpl.
  destruct (run_rest ic r (MState pre s ∅) st) as (k & Ek & Lk).
  { rewrite E. apply list_elem_of_here. }
  simpl in Ek. rewrite Ek at 1 2. rewrite length_app.
  replace (length k + length (rest st) - length (rest st))%nat with (length k) by lia.
  by rewrite take_app_length.
Qed.

Lemma re_search_group0 ic r s m :
  re_search ic r s = Some m → (min_len r ≤ length (group0 m))%nat.
Proof.
  unfold re_search. generalize (@nil N) as pre.
  induction s as [|c s IH]; intros pre; simpl;
    destruct (match_at ic r pre _) eqn:E; try done.
  - intros [= <-]. by eapply match_at_group0.
  - intros [= <-]. by eapply match_at_group0.
  - apply IH.
Qed.

End Matcher.

(** ** Sessions *)

Section Sessions.
Context {U : Unicode}.

Lemma TIME_RE_binds : binds 1 TIME_RE = true ∧ binds 2 TIME_RE = true.
Proof. by split. Qed.

Lemma parse_program_fields_no_token line :
  has_degree_token line = false → parse_program_fields line = no_fields.
Proof.
  destruct line as [[|c l]|]; simpl; try done.
  destruct (re_match true DEGREE_RE _); [|done].
  intros H. apply bool_decide_eq_false in H. destruct H. eauto.
Qed.

(** The test of [parse_program_fields] succeeds exactly on the lines whose
    normalized text starts with a degree token. *)
Lemma has_degree_token_spec line :
  has_degree_token line = true ↔ degree_token_at_start line.
Proof.
  unfold degree_token_at_start. destruct line as [[|c l]|]; simpl.
  - split; [done|]. intros (l & [= <-] & token & text & c & r & _ & E & _).
    by destruct text.
  - rewrite bool_decide_eq_true, degree_match_spec. split; [by eauto|].
    by intros (l' & [= <-] & H).
  - split; [done | by intros (l & ? & _)].
Qed.

Lemma parse_program_fields_degree line :
  is_Some (pf_degree (parse_program_fields line)) ↔ degree_token_at_start line.
Proof.
  rewrite <- has_degree_token_spec. destruct line as [[|c l]|]; simpl.
  - split; [by intros [? ?] | done].
  - destruct (re_match true DEGREE_RE _) as [m|] eqn:E.
    + destruct (re_search true SECTION_RE _); simpl;
        (split; [done|]); intros _; by apply (match_at_binds _ _ _ _ _ _ E).
    + split; [by intros [? ?] | done].
  - split; [by intros [? ?] | done].
Qed.

(** The program fields of a session are those of its final program line. *)
Lemma parse_session_program_fields raw refs rt kt :
  let s := parse_session raw refs rt kt in
  let pf := parse_program_fields (program_line s) in
  degree s = pf_degree pf ∧ program s = pf_program pf ∧ section s = pf_section pf ∧
  session s = pf_session pf ∧ semester s = pf_semester pf.
Proof.
  unfold parse_session.
  repeat match goal with
         | |- context [let '(_, _) := ?x in _] => destruct x
         end.
  done.
Qed.

Lemma parse_session_times raw refs rt kt :
  let s := parse_session raw refs rt kt in
  (is_Some (start_time s) ∧ is_Some (end_time s)) ∨
  (start_time s = None ∧ end_time s = None).
Proof.
  unfold parse_session.
  destruct (find_teacher _) as [teacher_line teacher_index].
  match goal with
  | |- context [let '(_, _) := ?x in _] => destruct x as [[? ?] ?]
  end.
  destruct (split_course_line _) as [? ?].
  destruct (truthy teacher_line); [|by right].
  destruct (re_search false TIME_RE _) as [m|] eqn:E; [|by right].
  left. simpl. split; eapply re_search_binds; by eauto.
Qed.

End Sessions.

(** C8. In every session that [parse_session] produces, [start_time] is
    present exactly when [end_time] is: both are groups of the one match of
    [TIME_RE] on the teacher line, and every match of [TIME_RE] sets both. *)
Theorem start_time_and_end_time_copresent :
  ∀ (U : Unicode) (raw_lines reference_programs : list pystr)
    (resolve_truncated keep_truncated : bool),
    let s := parse_session raw_lines reference_programs resolve_truncated keep_truncated in
    is_Some (start_time s) ↔ is_Some (end_time s).
Proof.
  intros U raw refs rt kt s.
  destruct (parse_session_times raw refs rt kt) as [[H1 H2] | [H1 H2]]; fold s in H1, H2.
  - done.
  - rewrite H1, H2. done.
Qed.

(** C7. When no recognized degree token (BS, MS or PhD in any case,
    followed by whitespace) starts the normalized program line of a session,
    or the session has no program line, its five derived fields [degree],
    [program], [section], [session] and [semester] are all null. *)
Theorem no_degree_token_no_program_fields :
  ∀ (U : Unicode) (raw_lines reference_programs : list pystr)
    (resolve_truncated keep_truncated : bool),
    let s := parse_session raw_lines reference_programs resolve_truncated keep_truncated in
    ¬ degree_token_at_start (program_line s) →
    degree s = None ∧ program s = None ∧ section s = None ∧ session s = None ∧
    semester s = None.
Proof.
  intros U raw refs rt kt s H.
  destruct (parse_session_program_fields raw refs rt kt) as (E1 & E2 & E3 & E4 & E5).
  fold s in E1, E2, E3, E4, E5.
  rewrite <- has_degree_token_spec in H. apply not_true_is_false in H.
  rewrite (parse_program_fields_no_token _ H) in E1, E2, E3, E4, E5.
  done.
Qed.

(** A program line with a section, session years and a semester, and no
    degree in front: none of the five fields is produced. *)
Lemma no_degree_token_no_program_fields_witness :
  let s := parse_session (U := ascii_tables)
             [u "Algorithms # CS201";
              u "Computer Science (Regular 1) 2021-2025 Semester# 3";
              u "Dr. Smith (09:00 - 10:30)"] [] true false in
  program_line s = Some (u "Computer Science (Regular 1) 2021-2025 Semester# 3") ∧
  degree s = None ∧ program s = None ∧ section s = None ∧ session s = None ∧
  semester s = None.
Proof.
  split; [reflexivity|].
  apply (no_degree_token_no_program_fields ascii_tables).
  rewrite <- has_degree_token_spec. vm_compute. discriminate.
Defined.

(** The converse for [degree]: a session has a degree exactly when a degree
    token starts its normalized program line. *)
Lemma degree_present_iff_token :
  ∀ (U : Unicode) (raw_lines reference_programs : list pystr)
    (resolve_truncated keep_truncated : bool),
    let s := parse_session raw_lines reference_programs resolve_truncated keep_truncated in
    is_Some (degree s) ↔ degree_token_at_start (program_line s).
Proof.
  intros U raw refs rt kt s.
  destruct (parse_session_program_fields raw refs rt kt) as (E1 & _).
  fold s in E1. rewrite E1. apply parse_program_fields_degree.
Qed.

(** ** Cells *)

Section Cells.
Context {U : Unicode}.

Lemma fold_group_step lines : ∀ sessions current,
  (let '(ss, cur) := fold_left group_step lines (sessions, current) in
   match cur with [] => ss | _ => ss ++ [cur] end)
  = sessions ++ groups_from current lines.
Proof.
  induction lines as [|l ls IH]; intros sessions current; simpl.
  - destruct current; by rewrite ?app_nil_r.
  - destruct (has_time l); rewrite IH; [|done].
    by rewrite <- app_assoc.
Qed.

Lemma group_lines_groups_from lines : group_lines lines = groups_from [] lines.
Proof. unfold group_lines. apply (fold_group_step lines [] []). Qed.

Lemma groups_from_concat lines : ∀ cur,
  concat (groups_from cur lines) = cur ++ lines.
Proof.
  induction lines as [|l ls IH]; intros cur; simpl.
  - destruct cur; simpl; by rewrite ?app_nil_r.
  - destruct (has_time l); simpl; rewrite IH; by rewrite <- ?app_assoc.
Qed.

Lemma trailing_count_no_time cur :
  cur ≠ [] → Forall (λ l, has_time l = false) cur → trailing_count cur = 1%nat.
Proof.
  intros Hne Hall. unfold trailing_count.
  destruct (last cur) as [l|] eqn:E.
  - apply last_Some in E as [l' ->].
    apply Forall_app in Hall as [_ Hl]. apply Forall_inv in Hl. simpl in Hl.
    by rewrite Hl.
  - by apply last_None in E.
Qed.

Lemma groups_from_length lines : ∀ cur,
  Forall (λ l, has_time l = false) cur →
  length (groups_from cur lines)
  = (length (List.filter has_time lines) + trailing_count (cur ++ lines))%nat.
Proof.
  induction lines as [|l ls IH]; intros cur Hcur; simpl.
  - rewrite app_nil_r. destruct cur as [|c cur]; [done|].
    by rewrite trailing_count_no_time.
  - destruct (has_time l) eqn:El; simpl.
    + rewrite (IH [] (Forall_nil_2 _)). simpl. do 2 f_equal.
      unfold trailing_count. destruct ls as [|l2 ls].
      * by rewrite last_snoc, El.
      * by rewrite last_app_cons, last_cons_cons.
    + rewrite (IH (cur ++ [l])), <- app_assoc; [done|].
      apply Forall_app. split; [done|]. by apply Forall_singleton.
Qed.

Lemma groups_from_shape lines : ∀ cur,
  Forall (λ l, has_time l = false) cur →
  ∃ closed trailing,
    groups_from cur lines = closed ++ trailing ∧
    Forall closed_group closed ∧
    (trailing = [] ∨ ∃ g, trailing = [g] ∧ trailing_group g).
Proof.
  induction lines as [|l ls IH]; intros cur Hcur; simpl.
  - destruct cur as [|c cur].
    + exists [], []. auto.
    + exists [], [c :: cur]. repeat split; [done|]. right. by eexists.
  - destruct (has_time l) eqn:El.
    + destruct (IH [] (Forall_nil_2 _)) as (cl & tr & -> & Hcl & Htr).
      exists ((cur ++ [l]) :: cl), tr. repeat split; [|done].
      constructor; [|done]. by exists cur, l.
    + apply IH. apply Forall_app. split; [done|]. by apply Forall_singleton.
Qed.

End Cells.

(** C5. For every cell, with [lines] the lines that the filter at the top of
    [parse_cell] keeps: when no line is kept, no session is produced;
    otherwise the groups are the lines in order, cut after every time-range
    line, each group closed by a time-range line being followed by at most
    one trailing group without a time range; one session is produced per
    group, so their number is the number of time-range lines, plus one when
    lines remain after the last of them. *)
Theorem parse_cell_groups :
  ∀ (U : Unicode) (cell_value : pystr) (reference_programs : list pystr)
    (resolve_truncated keep_truncated : bool),
    let lines := cell_lines cell_value in
    let sessions := parse_cell cell_value reference_programs resolve_truncated keep_truncated in
    (lines = [] → sessions = []) ∧
    sessions = map (λ g, parse_session g reference_programs resolve_truncated keep_truncated)
                   (group_lines lines) ∧
    concat (group_lines lines) = lines ∧
    (∃ closed trailing,
        group_lines lines = closed ++ trailing ∧
        Forall closed_group closed ∧
        (trailing = [] ∨ ∃ g, trailing = [g] ∧ trailing_group g)) ∧
    length sessions = (length (List.filter has_time lines) + trailing_count lines)%nat.
Proof.
  intros U cell refs rt kt lines sessions.
  assert (Hs : sessions = map (λ g, parse_session g refs rt kt) (group_lines lines)).
  { unfold sessions, parse_cell. fold lines. by destruct lines. }
  split; [|split; [done|split; [|split]]].
  - intros E. rewrite Hs, E. done.
  - rewrite group_lines_groups_from. apply groups_from_concat.
  - rewrite group_lines_groups_from. by apply groups_from_shape.
  - rewrite Hs, length_map, group_lines_groups_from.
    by rewrite (groups_from_length lines []).
Qed.

(** ** The program-line resolver *)

Section Resolver.
Context {U : Unicode}.

Lemma contains_nil (s : pystr) : contains [] s = true.
Proof. by destruct s. Qed.

Lemma truthy_str_eqb (p : pystr) : truthy (Some p) = negb (str_eqb p []).
Proof. by destruct p. Qed.

(** A constraint of the first loop skips the candidate exactly when the
    token is there and the candidate lacks it. *)
Lemma skip_constraint (token : option pystr) (text : pystr) :
  truthy token && negb (contains (default [] token) text)
  = negb (match token with Some v => contains v text | None => true end).
Proof.
  destruct token as [[|c v]|]; simpl; [|done..].
  by rewrite contains_nil.
Qed.

Lemma session_value_nonempty line v : session_value_of line = Some v → v ≠ [].
Proof.
  unfold session_value_of.
  destruct (re_search false SESSION_RE line) as [m|] eqn:E; [|done].
  intros [= <-] Hnil. apply re_search_group0 in E. rewrite Hnil in E.
  vm_compute in E. lia.
Qed.

Lemma resolve_first_pass_find line pool :
  resolve_first_pass (prefix_of line) (session_value_of line) (semester_value_of line) pool
  = find (first_pass_ok line) pool.
Proof.
  induction pool as [|c pool IH]; [done|].
  cbn [resolve_first_pass find].
  rewrite !skip_constraint, IH, truthy_str_eqb.
  unfold first_pass_ok, first_pass_spec.
  destruct (session_value_of line) as [v|], (semester_value_of line) as [w|]; simpl;
    repeat match goal with
           | |- context [contains ?a ?b] => destruct (contains a b); simpl
           | |- context [startswith ?a ?b] => destruct (startswith a b); simpl
           | |- context [str_eqb ?a ?b] => destruct (str_eqb a b); simpl
           end; done.
Qed.

Lemma resolve_second_pass_find line pool :
  resolve_second_pass (session_value_of line) (semester_value_of line) pool
  = find (second_pass_ok line) pool.
Proof.
  induction pool as [|c pool IH]; simpl; [done|].
  rewrite IH. unfold second_pass_ok.
  destruct (session_value_of line) as [v|] eqn:Ev; [|done].
  apply session_value_nonempty in Ev. destruct v as [|x v]; [done|]. simpl.
  destruct (semester_value_of line) as [[|y w]|]; simpl;
    rewrite ?contains_nil;
    repeat match goal with
           | |- context [if ?b then _ else _] => destruct b eqn:?; simpl in *
           end; try done; congruence.
Qed.

End Resolver.

(** C4, amended. With an empty pool the line comes back unchanged. For any
    pool, when the prefix of the line (the line without the character "…",
    trimmed) is not empty and some candidate starts with it and contains the
    session and semester tokens the line has, the first such candidate is
    returned; otherwise, when the line has a session token, the first
    candidate that contains it (and the semester token, when the line has
    one) is returned; otherwise the line comes back unchanged. *)
Theorem resolve_program_line_first_match :
  ∀ (U : Unicode) (line : pystr) (pool : list pystr),
    resolve_program_line line [] = line ∧
    resolve_program_line line pool =
      match find (first_pass_ok line) pool with
      | Some candidate => candidate
      | None =>
          match find (second_pass_ok line) pool with
          | Some candidate => candidate
          | None => line
          end
      end.
Proof.
  intros U line pool. split; [done|].
  unfold resolve_program_line.
  by rewrite resolve_first_pass_find, resolve_second_pass_find.
Qed.

(** C4, as stated, fails when the prefix is empty: for the line "…" every
    candidate starts with the (empty) prefix and the line has no token, and
    the line is returned, not the candidate. *)
Lemma resolve_program_line_empty_prefix :
  let line := u "…" in
  let candidate := u "BS Computer Science (Regular 1) 2021-2025 Semester# 3" in
  ¬ (first_pass_spec (U := ascii_tables) line candidate = true →
     resolve_program_line (U := ascii_tables) line [candidate] = candidate).
Proof.
  intros line candidate H. specialize (H eq_refl). vm_compute in H. discriminate.
Qed.

(** ** Header rows *)

Section Header.
Context {U : Unicode}.

Lemma enumerate_from_snoc {A} (l : list A) x : ∀ k,
  enumerate_from k (l ++ [x]) = enumerate_from k l ++ [((k + length l)%nat, x)].
Proof.
  induction l as [|y l IH]; intros k; simpl.
  - by rewrite Nat.add_0_r.
  - by rewrite IH, Nat.add_succ_r.
Qed.

Lemma normalize_day_nonempty value day : normalize_day value = Some day → day ≠ [].
Proof.
  unfold normalize_day. intros [Hin _]%find_some.
  repeat (destruct Hin as [<- | Hin]; [done|]). done.
Qed.

Lemma last_day_seen_snoc l value :
  last_day_seen (l ++ [value]) =
  match normalize_day value with
  | Some day => Some day
  | None => last_day_seen l
  end.
Proof.
  induction l as [|w l IH]; simpl.
  - by destruct (normalize_day value).
  - rewrite IH. by destruct (normalize_day value).
Qed.

Lemma last_day_seen_nonempty l day : last_day_seen l = Some day → day ≠ [].
Proof.
  induction l as [|w l IH]; simpl; [done|].
  destruct (last_day_seen l) as [d|].
  - intros [= <-]. by apply IH.
  - apply normalize_day_nonempty.
Qed.

Lemma last_day_seen_none l :
  (∀ k value, l !! k = Some value → normalize_day value = None) →
  last_day_seen l = None.
Proof.
  induction l as [|w l IH]; intros H; simpl; [done|].
  rewrite IH; [apply (H 0%nat w eq_refl) | intros k v Hk; apply (H (S k) v Hk)].
Qed.

Lemma last_day_seen_most_recent l : ∀ j value day,
  l !! j = Some value → normalize_day value = Some day →
  (∀ k v, (j < k)%nat → l !! k = Some v → normalize_day v = None) →
  last_day_seen l = Some day.
Proof.
  induction l as [|w l IH]; intros j value day Hj Hd Hlater; [done|].
  destruct j as [|j]; simpl in *.
  - injection Hj as ->. rewrite last_day_seen_none; [done|].
    intros k v Hk. apply (Hlater (S k) v); [lia | done].
  - erewrite IH; [done | exact Hj | exact Hd |].
    intros k v Hlt Hk. apply (Hlater (S k) v); [lia | done].
Qed.

(** The state of the header loop after the cells [l]: the last day seen and,
    for every column, the day it is mapped to. *)
Lemma header_loop_state l :
  let '(day_columns, last_day) := fold_left header_step (enumerate l) (∅, None) in
  last_day = last_day_seen l ∧
  ∀ i, day_columns !! i =
       match l !! i with
       | None => None
       | Some value =>
           match normalize_day value with
           | Some day => Some day
           | None =>
               if (0 <? i)%nat && negb (truthy (Some value))
               then last_day_seen (take i l) else None
           end
       end.
Proof.
  induction l as [|value l IH] using rev_ind; [done|].
  unfold enumerate in *. rewrite enumerate_from_snoc, fold_left_app.
  cbn [fold_left]. rewrite Nat.add_0_l.
  destruct (fold_left header_step _ _) as [dc ld]. destruct IH as [-> IH].
  assert (Hold : ∀ i, i ≠ length l →
            match (l ++ [value]) !! i with
            | None => None
            | Some v =>
                match normalize_day v with
                | Some day => Some day
                | None =>
                    if (0 <? i)%nat && negb (truthy (Some v))
                    then last_day_seen (take i (l ++ [value])) else None
                end
            end = dc !! i).
  { intros i Hi. rewrite IH. destruct (decide (i < length l)%nat) as [Hlt|Hge].
    - rewrite lookup_app_l by done. by rewrite take_app_le by lia.
    - rewrite !(lookup_ge_None_2 _ i); [done | lia |].
      rewrite length_app. simpl. lia. }
  assert (Hnew : (l ++ [value]) !! length l = Some value).
  { by rewrite list_lookup_middle. }
  assert (Hnone : dc !! length l = None).
  { rewrite IH. by rewrite lookup_ge_None_2. }
  rewrite last_day_seen_snoc. unfold header_step.
  destruct (normalize_day value) as [[|c day]|] eqn:Ed.
  - by apply normalize_day_nonempty in Ed.
  - cbv beta iota. split; [done|].
    intros i. destruct (decide (i = length l)) as [->|Hi].
    + by rewrite lookup_insert_eq, Hnew, Ed.
    + rewrite lookup_insert_ne by done. by rewrite Hold.
  - destruct (last_day_seen l) as [[|c ld]|] eqn:El.
    + by apply last_day_seen_nonempty in El.
    + destruct ((0 <? length l)%nat && negb (truthy (Some value))) eqn:Ec;
        cbv beta iota; (split; [done|]);
        intros i; (destruct (decide (i = length l)) as [->|Hi]).
      * by rewrite lookup_insert_eq, Hnew, Ed, Ec, take_app_length.
      * rewrite lookup_insert_ne by done. by rewrite Hold.
      * by rewrite Hnone, Hnew, Ed, Ec.
      * by rewrite Hold.
    + cbv beta iota. split; [done|].
      intros i. destruct (decide (i = length l)) as [->|Hi].
      * rewrite Hnone, Hnew, Ed, take_app_length, El. by destruct (_ && _).
      * by rewrite Hold.
Qed.

Lemma day_columns_lookup header_row i :
  day_columns header_row !! i =
  match map strip header_row !! i with
  | None => None
  | Some value =>
      match normalize_day value with
      | Some day => Some day
      | None =>
          if (0 <? i)%nat && negb (truthy (Some value))
          then last_day_seen (take i (map strip header_row)) else None
      end
  end.
Proof.
  unfold day_columns. pose proof (header_loop_state (map strip header_row)) as H.
  destruct (fold_left header_step _ _) as [dc ld]. by destruct H as [_ ->].
Qed.

End Header.

(** C9. In every header row, a blank cell (one that is empty once trimmed
    and names no day) that comes after a cell naming a day is mapped to the
    day of the nearest such cell before it. The header row
    ["Room", "Monday", "", "Tuesday"] maps column 1 to Monday, column 2 to
    Monday and column 3 to Tuesday, and leaves column 0 unmapped. *)
Theorem blank_header_cell_continues_last_day :
  (∀ (U : Unicode) (header_row : list pystr) (i j : nat) (named day : pystr),
     let header := map strip header_row in
     header !! i = Some [] →
     (j < i)%nat →
     header !! j = Some named →
     normalize_day named = Some day →
     (∀ k value, (j < k ≤ i)%nat → header !! k = Some value →
                 normalize_day value = None) →
     day_columns header_row !! i = Some day) ∧
  let columns :=
    day_columns (U := ascii_tables) [u "Room"; u "Monday"; u ""; u "Tuesday"] in
  columns !! 0%nat = None ∧
  columns !! 1%nat = Some (u "Monday") ∧
  columns !! 2%nat = Some (u "Monday") ∧
  columns !! 3%nat = Some (u "Tuesday") ∧
  columns !! 4%nat = None.
Proof.
  split; [|by vm_compute].
  intros U header_row i j named day header Hi Hji Hj Hday Hbetween.
  rewrite day_columns_lookup. fold header. rewrite Hi.
  rewrite (Hbetween i [] ltac:(lia) Hi).
  replace (0 <? i)%nat with true by (symmetry; apply Nat.ltb_lt; lia). simpl.
  apply (last_day_seen_most_recent _ j named day).
  - by rewrite lookup_take_lt.
  - done.
  - intros k v Hjk Hk. apply lookup_take_Some in Hk as [Hk Hlt].
    apply (Hbetween k v); [lia | done].
Qed.

(** Column 2 of ["Room", "Monday", "", "Tuesday"], by the general rule. *)
Lemma blank_header_cell_continues_last_day_witness :
  day_columns (U := ascii_tables) [u "Room"; u "Monday"; u ""; u "Tuesday"] !! 2%nat
  = Some (u "Monday").
Proof.
  apply (proj1 blank_header_cell_continues_last_day ascii_tables
           [u "Room"; u "Monday"; u ""; u "Tuesday"] 2%nat 1%nat (u "Monday") (u "Monday")).
  - reflexivity.
  - lia.
  - reflexivity.
  - reflexivity.
  - intros k value Hk. assert (k = 2%nat) as -> by lia. by intros [= <-].
Defined.

(** ** Semester inference *)

Section Inference.
Context {U : Unicode}.

Lemma fold_left_flat_map {A B C} (f : A → C → A) (g : B → list C) (l : list B) :
  ∀ a, fold_left f (flat_map g l) a = fold_left (λ a b, fold_left f (g b) a) l a.
Proof.
  induction l as [|b l IH]; intros a; simpl; [done|].
  by rewrite fold_left_app, IH.
Qed.

(** The three nested loops visit the sessions in the order of [sessions_of]. *)
Lemma first_pass_flat tt :
  first_pass tt = fold_left record_semester (sessions_of tt) (∅, ∅).
Proof.
  unfold first_pass, sessions_of. rewrite fold_left_flat_map.
  generalize (∅ : gmap semester_key Z, ∅ : gset semester_key).
  induction tt as [|day tt IH]; intros st; simpl; [done|].
  by rewrite IH, fold_left_flat_map.
Qed.

Lemma sessions_of_infer tt :
  sessions_of (infer_missing_semesters tt)
  = map (fill_semester (first_pass tt)) (sessions_of tt).
Proof.
  unfold infer_missing_semesters, sessions_of.
  generalize (first_pass tt) as st. intros st.
  induction tt as [|[day rs] tt IH]; simpl; [done|].
  rewrite map_app, IH. f_equal. clear IH.
  induction rs as [|[room ss] rs IH]; simpl; [done|].
  by rewrite map_app, IH.
Qed.

Lemma semesters_of_snoc k l t :
  semesters_of k (l ++ [t]) =
  semesters_of k l ++
  (if decide (build_semester_key t = Some k)
   then match semester t with Some v => [v] | None => [] end else []).
Proof.
  unfold semesters_of. rewrite omap_app. f_equal. simpl.
  destruct (decide _); [|done]. by destruct (semester t).
Qed.

Lemma elem_of_semesters_of k l w :
  w ∈ semesters_of k l ↔
  ∃ t, t ∈ l ∧ build_semester_key t = Some k ∧ semester t = Some w.
Proof.
  unfold semesters_of. rewrite list_elem_of_omap. split.
  - intros (t & Ht & H). exists t. by destruct (decide _).
  - intros (t & Ht & Hk & Hs). exists t. by rewrite decide_True.
Qed.

(** The state of the first loop after the sessions [l]: the map holds the
    first semester seen for each key, and a key is a conflict exactly when
    two different semesters were seen for it. *)
Lemma first_loop_state l :
  let '(semester_map, conflicts) := fold_left record_semester l (∅, ∅) in
  ∀ k, semester_map !! k = head (semesters_of k l) ∧
       (k ∈ conflicts ↔
        ∃ v w, v ∈ semesters_of k l ∧ w ∈ semesters_of k l ∧ v ≠ w).
Proof.
  induction l as [|t l IH] using rev_ind.
  - intros k. split; [done|]. split; [set_solver|].
    by intros (v & w & Hv%elem_of_nil & _).
  - rewrite fold_left_app. cbn [fold_left].
    destruct (fold_left record_semester l _) as [sm cf].
    unfold record_semester.
    destruct (build_semester_key t) as [kt|] eqn:Ekt; cycle 1.
    { intros k. rewrite semesters_of_snoc, Ekt, decide_False, app_nil_r by done.
      apply IH. }
    destruct (semester t) as [sem|] eqn:Esem; cycle 1.
    { intros k. rewrite semesters_of_snoc, Esem.
      destruct (decide _); rewrite app_nil_r; apply IH. }
    assert (Hother : ∀ k, k ≠ kt → semesters_of k (l ++ [t]) = semesters_of k l).
    { intros k Hk. rewrite semesters_of_snoc, Ekt, decide_False, app_nil_r; [done|].
      congruence. }
    assert (Hkt : semesters_of kt (l ++ [t]) = semesters_of kt l ++ [sem]).
    { by rewrite semesters_of_snoc, Ekt, Esem, decide_True. }
    destruct (IH kt) as [Hm Hc].
    destruct (sm !! kt) as [known|] eqn:Ekn.
    + symmetry in Hm. apply head_Some in Hm as [rest_ Hm].
      destruct (bool_decide (known ≠ sem)) eqn:Ed.
      * apply bool_decide_eq_true in Ed. intros k.
        destruct (decide (k = kt)) as [->|Hk].
        -- rewrite Ekn, Hkt, Hm. split; [done|]. split; [|set_solver].
           intros _. exists known, sem. set_solver.
        -- rewrite (Hother k Hk). destruct (IH k) as [? ?]. split; [done|].
           set_solver.
      * apply bool_decide_eq_false in Ed. apply dec_stable in Ed as ->. intros k.
        destruct (decide (k = kt)) as [->|Hk].
        -- rewrite lookup_insert_eq, Hkt, Hm. split; [done|]. rewrite Hc, Hm.
           split; intros (v & w & Hv & Hw & Hne); exists v, w; set_solver.
        -- rewrite lookup_insert_ne, (Hother k Hk) by done. apply IH.
    + symmetry in Hm. apply head_None in Hm. intros k.
      destruct (decide (k = kt)) as [->|Hk].
      * rewrite lookup_insert_eq, Hkt, Hm. split; [done|]. rewrite Hc, Hm.
        split; intros (v & w & Hv & Hw & Hne); set_solver.
      * rewrite lookup_insert_ne, (Hother k Hk) by done. apply IH.
Qed.

Lemma semesters_of_perm k l l' : l ≡ₚ l' → semesters_of k l ≡ₚ semesters_of k l'.
Proof. intros H. unfold semesters_of. by rewrite H. Qed.

(** What [fill_semester] does to a session without a semester depends only
    on which semesters the dataset holds for its key, not on their order. *)
Lemma fill_semester_perm l l' s :
  l ≡ₚ l' →
  fill_semester (fold_left record_semester l (∅, ∅)) s
  = fill_semester (fold_left record_semester l' (∅, ∅)) s.
Proof.
  intros Hp. pose proof (first_loop_state l) as H. pose proof (first_loop_state l') as H'.
  destruct (fold_left record_semester l _) as [sm cf].
  destruct (fold_left record_semester l' _) as [sm' cf'].
  unfold fill_semester. destruct (semester s); [done|].
  destruct (build_semester_key s) as [k|]; [|done].
  destruct (H k) as [Hm Hc], (H' k) as [Hm' Hc'].
  pose proof (semesters_of_perm k _ _ Hp) as Hk.
  assert (Hcc : k ∈ cf ↔ k ∈ cf').
  { rewrite Hc, Hc'. by setoid_rewrite Hk. }
  destruct (bool_decide (k ∈ cf)) eqn:E, (bool_decide (k ∈ cf')) eqn:E'; [done|..].
  - apply bool_decide_eq_true in E. apply bool_decide_eq_false in E'. tauto.
  - apply bool_decide_eq_false in E. apply bool_decide_eq_true in E'. tauto.
  - apply bool_decide_eq_false in E. rewrite Hm, Hm'.
    destruct (semesters_of k l) as [|v vs] eqn:El.
    + apply Permutation_nil in Hk. by rewrite Hk.
    + destruct (semesters_of k l') as [|v' vs'] eqn:El'.
      * symmetry in Hk. by apply Permutation_nil in Hk.
      * simpl. destruct (decide (v = v')) as [->|Hne]; [done|].
        destruct E. rewrite Hc. exists v, v'. split; [set_solver|].
        split; [|done]. rewrite Hk. set_solver.
Qed.

Lemma fill_semester_framed st s : semester_filled s (fill_semester st s).
Proof.
  assert (Hrefl : semester_filled s s).
  { by repeat split; try left. }
  unfold fill_semester. destruct st as [sm cf].
  destruct (semester s) eqn:Es; [done|].
  destruct (build_semester_key s); [|done].
  destruct (bool_decide _); [done|]. destruct (sm !! _); [|done].
  by repeat split; try right.
Qed.

End Inference.

(** C3. For every timetable, with the sessions numbered in the order the
    loops visit them: a session that has a semester is left as it is; when a
    session without a semester and with the key [k] receives the semester
    [v], every session of the timetable with the key [k] and a concrete
    semester has the semester [v]; so when two sessions with the key [k]
    have different semesters, no session with that key receives one; and
    visiting the sessions in any other order in the first loop gives every
    session the same result. *)
Theorem inference_fills_only_unambiguous_keys :
  ∀ (U : Unicode) (tt : timetable),
    let before_ := sessions_of tt in
    let after_ := sessions_of (infer_missing_semesters tt) in
    length after_ = length before_ ∧
    (∀ i s s', before_ !! i = Some s → after_ !! i = Some s' →
       (is_Some (semester s) → s' = s) ∧
       (∀ k v, semester s = None → build_semester_key s = Some k →
               semester s' = Some v →
               ∀ t w, t ∈ before_ → build_semester_key t = Some k →
                      semester t = Some w → w = v) ∧
       (∀ k t1 t2 w1 w2,
           build_semester_key s = Some k → semester s = None →
           t1 ∈ before_ → build_semester_key t1 = Some k → semester t1 = Some w1 →
           t2 ∈ before_ → build_semester_key t2 = Some k → semester t2 = Some w2 →
           w1 ≠ w2 → semester s' = None)) ∧
    (∀ visited s, visited ≡ₚ before_ →
       fill_semester (fold_left record_semester visited (∅, ∅)) s
       = fill_semester (first_pass tt) s).
Proof.
  intros U tt before_ after_.
  assert (Hafter : after_ = map (fill_semester (first_pass tt)) before_)
    by apply sessions_of_infer.
  assert (Hkey : ∀ s k v, semester s = None → build_semester_key s = Some k →
            semester (fill_semester (first_pass tt) s) = Some v →
            ∀ t w, t ∈ before_ → build_semester_key t = Some k →
                   semester t = Some w → w = v).
  { intros s k v Hs Hk Hv t w Ht Htk Htw.
    rewrite first_pass_flat in Hv. fold before_ in Hv.
    pose proof (first_loop_state before_) as H.
    destruct (fold_left record_semester before_ _) as [sm cf].
    destruct (H k) as [Hm Hc]. unfold fill_semester in Hv. rewrite Hs, Hk in Hv.
    destruct (bool_decide (k ∈ cf)) eqn:E; [congruence|].
    apply bool_decide_eq_false in E.
    destruct (sm !! k) as [inferred|] eqn:Ei; [|congruence].
    simpl in Hv. injection Hv as ->.
    destruct (decide (w = v)) as [|Hne]; [done|]. destruct E. apply Hc.
    exists w, v. split; [|split; [|done]].
    - apply elem_of_semesters_of. by exists t.
    - symmetry in Hm. apply head_Some in Hm as [r ->]. set_solver. }
  split; [by rewrite Hafter, length_map|]. split.
  - intros i s s' Hs Hs'. rewrite Hafter, list_lookup_fmap, Hs in Hs'.
    injection Hs' as <-. split; [|split].
    + intros [v Hv]. unfold fill_semester. destruct (first_pass tt). by rewrite Hv.
    + intros k v Hn Hk Hv. by apply (Hkey s k v).
    + intros k t1 t2 w1 w2 Hk Hn Ht1 Hk1 Hw1 Ht2 Hk2 Hw2 Hne.
      destruct (semester (fill_semester (first_pass tt) s)) as [v|] eqn:Ev; [|done].
      destruct Hne.
      rewrite (Hkey s k v Hn Hk Ev t1 w1 Ht1 Hk1 Hw1).
      by rewrite (Hkey s k v Hn Hk Ev t2 w2 Ht2 Hk2 Hw2).
  - intros visited s Hp. rewrite first_pass_flat. by apply fill_semester_perm.
Qed.

(** C10. For every timetable, [infer_missing_semesters] keeps the days and
    their order, the rooms of each day and their order, and the number and
    order of the sessions of each room; each session keeps every field other
    than [semester], and keeps its semester unless it had none. *)
Theorem inference_changes_only_null_semesters :
  ∀ (U : Unicode) (tt : timetable),
    Forall2 rooms_framed tt (infer_missing_semesters tt).
Proof.
  intros U tt. unfold infer_missing_semesters.
  generalize (first_pass tt) as st. intros st.
  induction tt as [|[day rs] tt IH]; constructor; [|done].
  split; [done|]. simpl. clear IH.
  induction rs as [|[room ss] rs IH]; constructor; [|done].
  split; [done|]. simpl. clear IH.
  induction ss as [|s ss IH]; constructor; [|done].
  apply fill_semester_framed.
Qed.

(** ** The line filter *)

(** The two icon literals, as the source writes them. *)
Lemma icon_literals :
  u " swap" = ICON_F362 :: u " swap" ∧ u "" = [ICON_F1F8].
Proof. by split. Qed.

(** Whatever the character tables, a non-blank line whose trimmed, lowercased
    text is "swap" is a noise line in the words of the specification and
    passes the filter of [parse_cell]: that text is not the stamped one,
    does not start with "was:" and does not contain "delete". *)
Lemma swap_lines_are_kept :
  ∀ (U : Unicode) (line : pystr),
    strip line ≠ [] → lower (strip line) = u "swap" →
    is_noise line = true ∧ keep_line line = true.
Proof.
  intros U line Hne E. unfold is_noise, keep_line. rewrite E.
  split; [done|]. by destruct (strip line).
Qed.

(** C1, amended. For every cell, the lines that reach the grouping are the
    trimmed lines of the trimmed cell text that the filter keeps, in order;
    and the filter drops a line exactly when its trimmed text is empty, or
    its trimmed, lowercased text is the character U+F362 followed by
    " swap", or starts with "was:", or contains "delete". *)
Theorem filter_drops_blank_stamp_was_delete :
  ∀ (U : Unicode),
    (∀ cell_value,
       cell_lines cell_value
       = map strip (List.filter keep_line (split (chr "010") (strip cell_value)))) ∧
    (∀ line, keep_line line = false ↔ discarded line).
Proof.
  intros U. split.
  - intros cell. unfold cell_lines. by destruct (strip cell) as [|c t].
  - intros line. unfold keep_line, discarded.
    rewrite !andb_false_iff, !negb_false_iff. unfold str_eqb.
    rewrite bool_decide_eq_true. split.
    + intros [[[H|H]|H]|H]; [left; by destruct (strip line) | auto..].
    + intros [H|[H|[H|H]]]; [left; left; left; by rewrite H | auto..].
Qed.

(** C1, as stated, fails: the line "swap" is a noise line in the words of the
    specification, and the filter keeps it. *)
Lemma plain_swap_line_is_kept :
  ¬ (keep_line (U := ascii_tables) (u "swap") = false ↔
     is_noise (U := ascii_tables) (u "swap") = true).
Proof. intros [_ H]. specialize (H eq_refl). vm_compute in H. discriminate. Qed.

(** The two swap lines on the ASCII tables: the stamped line is dropped and
    its cell gives no session; the plain line is kept and becomes a session
    of its own. *)
Lemma stamped_and_plain_swap_cells :
  keep_line (U := ascii_tables) (ICON_F362 :: u " Swap") = false ∧
  is_noise (U := ascii_tables) (ICON_F362 :: u " Swap") = false ∧
  parse_cell (U := ascii_tables) (ICON_F362 :: u " Swap") [] true false = [] ∧
  cell_lines (U := ascii_tables) (u "swap") = [u "swap"] ∧
  map course_title (parse_cell (U := ascii_tables) (u "swap") [] true false)
    = [Some (u "swap")].
Proof. by vm_compute. Qed.

(** A line that is the character U+F1F8 alone is not a course line: the
    course and the program are read off the lines after it. *)
Lemma icon_line_is_not_the_course_line :
  map (λ s, (course_title s, course_code s, degree s, raw_lines s))
    (parse_cell (U := ascii_tables)
       (join [chr "010"]
          [[ICON_F1F8]; u "Algorithms # CS201";
           u "BS Computer Science (Regular 1) 2021-2025 Semester# 3";
           u "Dr. Smith (09:00 - 10:30)"]) [] true false)
  = [(Some (u "Algorithms"), Some (u "CS201"), Some (u "BS"),
      [[ICON_F1F8]; u "Algorithms # CS201";
       u "BS Computer Science (Regular 1) 2021-2025 Semester# 3";
       u "Dr. Smith (09:00 - 10:30)"])].
Proof. by vm_compute. Qed.

(** ** Scenarios on the ASCII tables *)

(** C2, amended. The cell of scenario B gives exactly one session, with
    course_title "BS Computer Science", course_code "CS101", degree "BS",
    program "Computer Science (" (the text before the section, trimmed, so
    with the opening parenthesis), section "Regular 1", session "2021-2025",
    semester 3, teacher_name "Dr. Smith", start_time "09:00" and end_time
    "10:30", whatever the reference pool and the flags. *)
Theorem scenario_B_session :
  ∀ (reference_programs : list pystr) (resolve_truncated keep_truncated : bool),
    map scenario_fields
      (parse_cell (U := ascii_tables) scenario_B_cell reference_programs
         resolve_truncated keep_truncated)
    = [(Some (u "BS Computer Science"), Some (u "CS101"), Some (u "BS"),
        Some (u "Computer Science ("), Some (u "Regular 1"), Some (u "2021-2025"),
        Some 3%Z, Some (u "Dr. Smith"), Some (u "09:00"), Some (u "10:30"))].
Proof. intros refs [] []; by vm_compute. Qed.

(** C2, as stated, fails: the session of scenario B does not have the
    program "Computer Science". *)
Lemma scenario_B_program_keeps_parenthesis :
  map scenario_fields (parse_cell (U := ascii_tables) scenario_B_cell [] true false)
  ≠ [(Some (u "BS Computer Science"), Some (u "CS101"), Some (u "BS"),
      Some (u "Computer Science"), Some (u "Regular 1"), Some (u "2021-2025"),
      Some 3%Z, Some (u "Dr. Smith"), Some (u "09:00"), Some (u "10:30"))].
Proof. vm_compute. discriminate. Qed.

(** * Further properties of the module *)

(** ** Where a match lies in the text *)

Section MatchPosition.
Context {U : Unicode}.

Lemma match_at_prefix ic r pre s m :
  match_at ic r pre s = Some m → ∃ b, s = group0 m ++ b.
Proof.
  unfold match_at.
  destruct (run ic r _) as [|st l] eqn:E; [done|]. intros [= <-]. simpl.
  destruct (run_rest ic r (MState pre s ∅) st) as (k & Ek & _).
  { rewrite E. apply list_elem_of_here. }
  simpl in Ek. exists (rest st). rewrite Ek at 1 2 3. rewrite length_app.
  replace (length k + length (rest st) - length (rest st))%nat with (length k) by lia.
  by rewrite take_app_length.
Qed.

(** The text of a match is a piece of the text searched. *)
Lemma re_search_substring ic r s m :
  re_search ic r s = Some m → ∃ a b, s = a ++ group0 m ++ b.
Proof.
  unfold re_search.
  enough (H : ∀ pre, search_from ic r pre s = Some m → ∃ a b, s = a ++ group0 m ++ b)
    by apply H.
  induction s as [|c s IH]; intros pre; simpl;
    destruct (match_at ic r pre _) eqn:E; try done.
  - intros [= <-]. apply match_at_prefix in E as [b E]. by exists [], b.
  - intros [= <-]. apply match_at_prefix in E as [b E]. by exists [], b.
  - intros (a & b & ->)%IH. by exists (c :: a), b.
Qed.

End MatchPosition.

(** ** What the resolver returns *)

(** X1. [resolve_program_line] returns the line it was given or one of the
    candidates of the pool, never another text; and when the line has a
    session token (YYYY-YYYY), the text returned contains that token. *)
Theorem resolve_returns_line_or_candidate :
  ∀ (U : Unicode) (line : pystr) (pool : list pystr),
    let resolved := resolve_program_line line pool in
    (resolved = line ∨ resolved ∈ pool) ∧
    (∀ v, session_value_of line = Some v → contains v resolved = true).
Proof.
  intros U line pool resolved. subst resolved. unfold resolve_program_line.
  rewrite resolve_first_pass_find, resolve_second_pass_find.
  destruct (find (first_pass_ok line) pool) as [c|] eqn:E1.
  { apply find_some in E1 as [Hin Hok]. split; [right; by apply list_elem_of_In|].
    intros v Hv. unfold first_pass_ok, first_pass_spec in Hok. rewrite Hv in Hok.
    apply andb_true_iff in Hok as [_ Hok]. apply andb_true_iff in Hok as [Hok _].
    by apply andb_true_iff in Hok as [_ Hok]. }
  destruct (find (second_pass_ok line) pool) as [c|] eqn:E2.
  { apply find_some in E2 as [Hin Hok]. split; [right; by apply list_elem_of_In|].
    intros v Hv. unfold second_pass_ok in Hok. rewrite Hv in Hok.
    by apply andb_true_iff in Hok as [Hok ?]. }
  split; [by left|]. intros v Hv. unfold session_value_of in Hv.
  destruct (re_search false SESSION_RE line) as [m|] eqn:E; [|done].
  injection Hv as <-. apply contains_spec. by eapply re_search_substring.
Qed.

(** ** What the flags and the pool can change *)

(** X2. The reference pool and the two flags reach a session only through
    its program line: sessions parsed from the same lines agree on every
    field other than [program_line] and the five fields derived from it.
    With resolution off, or with [keep_truncated] on, or when the program
    line is not truncated, the whole session is the one parsed with
    resolution off and an empty pool. *)
Theorem flags_only_reach_the_program_line :
  ∀ (U : Unicode) (lines pool pool' : list pystr) (rt kt rt' kt' : bool),
    let s := parse_session lines pool rt kt in
    let s' := parse_session lines pool' rt' kt' in
    let plain := parse_session lines [] false false in
    (combined_class s = combined_class s' ∧ course_title s = course_title s' ∧
     course_code s = course_code s' ∧ course_truncated s = course_truncated s' ∧
     program_truncated s = program_truncated s' ∧ teacher_name s = teacher_name s' ∧
     teacher_truncated s = teacher_truncated s' ∧ start_time s = start_time s' ∧
     end_time s = end_time s' ∧ practical s = practical s' ∧
     raw_lines s = raw_lines s') ∧
    (rt = false ∨ kt = true ∨ program_truncated s = false → s = plain).
Proof.
  intros U raw pool pool' rt kt rt' kt' s s' plain. subst s s' plain.
  unfold parse_session.
  destruct (find_teacher _) as [teacher_line teacher_index].
  match goal with
  | |- context [let '(_, _) := ?x in _] => destruct x as [[cc cl] pl]
  end.
  destruct (split_course_line _) as [title code].
  match goal with
  | |- context [let '(_, _) := ?x in _] => destruct x as [[tn st] en]
  end.
  split; [done|]. simpl.
  intros [-> | [-> | ->]]; [done | | by rewrite andb_false_r].
  by destruct (rt && _ && _).
Qed.

(** ** More on semester inference *)

Section InferenceMore.
Context {U : Unicode}.

Lemma fill_semester_key st s :
  build_semester_key (fill_semester st s) = build_semester_key s.
Proof.
  destruct (fill_semester_framed st s) as [(_ & _ & _ & _ & _ & _ & Hd & Hp & Hs & Hy & _) _].
  unfold build_semester_key. by rewrite Hd, Hp, Hs, Hy.
Qed.

Lemma semesters_of_cons k t l :
  semesters_of k (t :: l) =
  (if decide (build_semester_key t = Some k)
   then match semester t with Some v => [v] | None => [] end else [])
  ++ semesters_of k l.
Proof.
  unfold semesters_of. simpl. destruct (decide _); [|done]. by destruct (semester t).
Qed.

(** A key that is a conflict or has no known semester: the sessions with
    that key go through the second loop unchanged. *)
Lemma semesters_of_fill sm cf k l :
  k ∈ cf ∨ sm !! k = None →
  semesters_of k (map (fill_semester (sm, cf)) l) = semesters_of k l.
Proof.
  intros Hk. induction l as [|t l IH]; [done|].
  cbn [map]. rewrite !semesters_of_cons, IH, fill_semester_key. f_equal.
  destruct (decide (build_semester_key t = Some k)) as [Et|]; [|done].
  unfold fill_semester. destruct (semester t) eqn:Es; [by rewrite Es|].
  rewrite Et. destruct (bool_decide (k ∈ cf)) eqn:Ec; [by rewrite Es|].
  apply bool_decide_eq_false in Ec. destruct Hk as [? | ->]; [done|]. by rewrite Es.
Qed.

Lemma fill_semester_twice l s :
  let st := fold_left record_semester l (∅, ∅) in
  let st' := fold_left record_semester (map (fill_semester st) l) (∅, ∅) in
  fill_semester st' (fill_semester st s) = fill_semester st s.
Proof.
  intros st st'. subst st st'.
  pose proof (first_loop_state l) as H.
  destruct (fold_left record_semester l _) as [sm cf].
  pose proof (first_loop_state (map (fill_semester (sm, cf)) l)) as H'.
  destruct (fold_left record_semester (map _ l) _) as [sm' cf'].
  unfold fill_semester at 2 3.
  destruct (semester s) eqn:Es.
  { unfold fill_semester. by rewrite Es. }
  destruct (build_semester_key s) as [k|] eqn:Ek.
  2: { unfold fill_semester. by rewrite Es, Ek. }
  destruct (H k) as [Hm Hc], (H' k) as [Hm' Hc'].
  destruct (bool_decide (k ∈ cf)) eqn:Ec.
  { apply bool_decide_eq_true in Ec. unfold fill_semester. rewrite Es, Ek.
    rewrite semesters_of_fill in Hc' by auto.
    rewrite bool_decide_eq_true_2; [done|]. apply Hc', Hc, Ec. }
  destruct (sm !! k) as [v|] eqn:Ev.
  { reflexivity. }
  unfold fill_semester. rewrite Es, Ek.
  rewrite semesters_of_fill in Hm' by auto. rewrite <- Hm in Hm'. rewrite Hm'.
  destruct (bool_decide (k ∈ cf')); reflexivity.
Qed.

End InferenceMore.

(** X3. When the sessions that carry a key and a concrete semester all carry
    the semester [v], and there is at least one, every session with that
    key has the semester [v] after the inference. *)
Theorem inference_fills_every_unambiguous_key :
  ∀ (U : Unicode) (tt : timetable) (i : nat) (s : ParsedSession)
    (k : semester_key) (v : Z),
    sessions_of tt !! i = Some s →
    build_semester_key s = Some k →
    (∃ t, t ∈ sessions_of tt ∧ build_semester_key t = Some k ∧ semester t = Some v) →
    (∀ t w, t ∈ sessions_of tt → build_semester_key t = Some k →
            semester t = Some w → w = v) →
    semester <$> sessions_of (infer_missing_semesters tt) !! i = Some (Some v).
Proof.
  intros U tt i s k v Hi Hk (t & Ht & Htk & Htv) Hall.
  rewrite sessions_of_infer, list_lookup_fmap, Hi. simpl. do 2 f_equal.
  rewrite first_pass_flat.
  pose proof (first_loop_state (sessions_of tt)) as H.
  destruct (fold_left record_semester _ _) as [sm cf].
  destruct (H k) as [Hm Hc]. unfold fill_semester.
  destruct (semester s) as [w|] eqn:Es.
  { simpl. rewrite Es. f_equal.
    apply (Hall s w); [by eapply list_elem_of_lookup_2 | done | done]. }
  rewrite Hk.
  assert (Hv : v ∈ semesters_of k (sessions_of tt)).
  { apply elem_of_semesters_of. by exists t. }
  assert (Heq : ∀ w, w ∈ semesters_of k (sessions_of tt) → w = v).
  { intros w (t' & ? & ? & ?)%elem_of_semesters_of. by eapply Hall. }
  rewrite bool_decide_eq_false_2.
  - rewrite Hm. destruct (semesters_of k (sessions_of tt)) as [|w ws].
    + by apply elem_of_nil in Hv.
    + simpl. f_equal. apply Heq. apply list_elem_of_here.
  - rewrite Hc. intros (a & b & Ha & Hb & Hne). apply Hne.
    by rewrite (Heq a Ha), (Heq b Hb).
Qed.

(** Scenario D: two sessions of one class with the semester 3 and a third
    without a semester, which receives the semester 3. *)
Lemma inference_fills_every_unambiguous_key_witness :
  let tt : timetable :=
    [(u "Monday", [(u "Room 1", [scenario_D_session (Some 3%Z)]);
                   (u "Room 2", [scenario_D_session None])]);
     (u "Tuesday", [(u "Room 1", [scenario_D_session (Some 3%Z)])])] in
  semester <$> sessions_of (infer_missing_semesters (U := ascii_tables) tt) !! 1%nat
  = Some (Some 3%Z).
Proof.
  intros tt.
  apply (inference_fills_every_unambiguous_key ascii_tables tt 1%nat
           (scenario_D_session None)
           (u "BS", u "Computer Science", u "Regular 1", u "2021-2025") 3%Z).
  - reflexivity.
  - reflexivity.
  - exists (scenario_D_session (Some 3%Z)). split; [|split; reflexivity].
    apply list_elem_of_here.
  - intros t w Ht Hk Hw. simpl in Ht.
    repeat (apply elem_of_cons in Ht as [-> | Ht]; [simpl in Hw; congruence|]).
    by apply elem_of_nil in Ht.
Defined.

(** X4. Running the inference a second time changes nothing. *)
Theorem inference_is_idempotent :
  ∀ (U : Unicode) (tt : timetable),
    infer_missing_semesters (infer_missing_semesters tt) = infer_missing_semesters tt.
Proof.
  intros U tt.
  assert (H : ∀ s, fill_semester (first_pass (infer_missing_semesters tt))
                     (fill_semester (first_pass tt) s)
                   = fill_semester (first_pass tt) s).
  { intros s. rewrite (first_pass_flat (infer_missing_semesters tt)), sessions_of_infer.
    rewrite first_pass_flat. apply fill_semester_twice. }
  unfold infer_missing_semesters at 1. cbv zeta.
  set (st' := first_pass (infer_missing_semesters tt)) in *. clearbody st'.
  unfold infer_missing_semesters. cbv zeta.
  set (st := first_pass tt) in *. clearbody st.
  rewrite map_map. apply map_ext. intros [day rs]. simpl. f_equal.
  rewrite map_map. apply map_ext. intros [room ss]. simpl. f_equal.
  rewrite map_map. by apply map_ext.
Qed.

(** ** Trimming *)

Section Trimming.
Context {U : Unicode}.

Lemma drop_while_suffix p s : ∃ k, s = k ++ drop_while p s.
Proof.
  induction s as [|c s [k IH]]; simpl; [by exists []|].
  destruct (p c); [|by exists []]. exists (c :: k). simpl. by f_equal.
Qed.

Lemma drop_while_head p s c t : drop_while p s = c :: t → p c = false.
Proof.
  induction s as [|x s IH]; simpl; [done|].
  destruct (p x) eqn:E; [done|]. by intros [= <- _].
Qed.

Lemma drop_while_id p s : (∀ c t, s = c :: t → p c = false) → drop_while p s = s.
Proof. destruct s as [|c t]; [done|]. intros H. simpl. by rewrite (H c t). Qed.

Lemma elem_of_drop_while p s x : x ∈ drop_while p s → x ∈ s.
Proof.
  destruct (drop_while_suffix p s) as [k E]. intros H. rewrite E.
  apply elem_of_app. by right.
Qed.

(** Every character of the trimmed text is a character of the text. *)
Lemma elem_of_strip s x : x ∈ strip s → x ∈ s.
Proof.
  unfold strip. rewrite elem_of_reverse. intros H%elem_of_drop_while.
  rewrite elem_of_reverse in H. by apply elem_of_drop_while in H.
Qed.

(** The trimmed text does not start with whitespace. *)
Lemma strip_head s c t : strip s = c :: t → isspace c = false.
Proof.
  unfold strip. intros E.
  destruct (drop_while_suffix isspace (reverse (drop_while isspace s))) as [k Ek].
  set (b := drop_while isspace (reverse (drop_while isspace s))) in *.
  assert (Hb : last b = Some c).
  { by rewrite <- head_reverse, E. }
  assert (Ha : head (drop_while isspace s) = Some c).
  { rewrite <- last_reverse, Ek.
    apply last_Some in Hb as [b' ->]. by rewrite app_assoc, last_snoc. }
  apply head_Some in Ha as [t' Ha]. by eapply drop_while_head.
Qed.

Lemma strip_strip s : strip (strip s) = strip s.
Proof.
  assert (H1 : drop_while isspace (strip s) = strip s).
  { apply drop_while_id. intros c t. apply strip_head. }
  unfold strip at 1. rewrite H1. unfold strip. rewrite reverse_involutive.
  f_equal. apply drop_while_id. intros c t. apply drop_while_head.
Qed.

Lemma strip_trimmed s : strip s ≠ [] → trimmed (strip s).
Proof. intros H. split; [done | apply strip_strip]. Qed.

End Trimming.

(** ** The lines a session is made of *)

Section RawLines.
Context {U : Unicode}.

Lemma parse_session_raw_lines lines pool rt kt :
  raw_lines (parse_session lines pool rt kt)
  = map strip (List.filter (λ line, truthy (Some (strip line))) lines).
Proof.
  unfold parse_session.
  repeat match goal with
         | |- context [let '(_, _) := ?x in _] => destruct x
         end.
  done.
Qed.

Lemma clean_trimmed_lines lines :
  Forall trimmed lines →
  map strip (List.filter (λ line, truthy (Some (strip line))) lines) = lines.
Proof.
  induction 1 as [|l lines [Hne Hl] _ IH]; [done|].
  cbn [List.filter]. rewrite Hl. destruct l as [|c l]; [done|].
  cbn [truthy map]. rewrite Hl. f_equal. exact IH.
Qed.

Lemma cell_lines_trimmed cell_value : Forall trimmed (cell_lines cell_value).
Proof.
  unfold cell_lines. destruct (strip cell_value); [constructor|].
  apply Forall_forall. intros line (x & -> & Hx)%list_elem_of_fmap.
  apply list_elem_of_In, filter_In in Hx as [_ Hx]. unfold keep_line in Hx.
  apply strip_trimmed. destruct (strip x); [done | done].
Qed.

End RawLines.

Section RawLinesOfCells.
Context {U : Unicode}.

Lemma parse_cell_raw_lines (cell_value : pystr) (pool : list pystr) (rt kt : bool) :
  let sessions := parse_cell cell_value pool rt kt in
  concat (map raw_lines sessions) = cell_lines cell_value ∧
  Forall trimmed (cell_lines cell_value) ∧
  Forall (λ s, raw_lines s ≠ []) sessions.
Proof.
  revert cell_value pool rt kt. intros cell pool rt kt sessions.
  pose proof (cell_lines_trimmed cell) as Htrim.
  assert (Hs : sessions = map (λ g, parse_session g pool rt kt)
                              (group_lines (cell_lines cell))).
  { unfold sessions, parse_cell. by destruct (cell_lines cell). }
  assert (Hg : Forall (λ g, g ≠ [] ∧ Forall trimmed g) (group_lines (cell_lines cell))).
  { rewrite group_lines_groups_from.
    pose proof (groups_from_concat (cell_lines cell) []) as Hc. simpl in Hc.
    destruct (groups_from_shape (cell_lines cell) [] (Forall_nil_2 _))
      as (cl & tr & E & Hcl & Htr).
    apply Forall_forall. intros g Hin. split.
    - rewrite E in Hin. apply elem_of_app in Hin as [Hin|Hin].
      + rewrite Forall_forall in Hcl. destruct (Hcl g Hin) as (body & t & -> & _).
        by destruct body.
      + destruct Htr as [->|(g' & -> & Hne & _)]; [by apply elem_of_nil in Hin|].
        by apply list_elem_of_singleton in Hin as ->.
    - apply Forall_forall. intros l Hl. rewrite Forall_forall in Htrim.
      apply Htrim. rewrite <- Hc. apply list_elem_of_In, in_concat.
      exists g. split; by apply list_elem_of_In. }
  assert (Hraw : map raw_lines sessions = group_lines (cell_lines cell)).
  { rewrite Hs, map_map. rewrite <- (map_id (group_lines _)) at 2.
    apply map_ext_Forall. eapply Forall_impl; [exact Hg|].
    intros g [_ Hall]. simpl. rewrite parse_session_raw_lines.
    by apply clean_trimmed_lines. }
  split; [|split; [done|]].
  - rewrite Hraw, group_lines_groups_from. apply groups_from_concat.
  - apply Forall_forall. intros s Hin.
    assert (Hr : raw_lines s ∈ map raw_lines sessions).
    { apply list_elem_of_fmap. by exists s. }
    rewrite Hraw in Hr. rewrite Forall_forall in Hg. by apply Hg.
Qed.

End RawLinesOfCells.

(** X5. The sessions of a cell carry, as [raw_lines], the lines of the cell
    that the filter kept, in order and without loss: concatenated, they are
    those lines. Every such line is trimmed and not blank, and no session
    has an empty [raw_lines]. *)
Theorem raw_lines_partition_the_cell :
  ∀ (U : Unicode) (cell_value : pystr) (pool : list pystr) (rt kt : bool),
    let sessions := parse_cell cell_value pool rt kt in
    concat (map raw_lines sessions) = cell_lines cell_value ∧
    Forall trimmed (cell_lines cell_value) ∧
    Forall (λ s, raw_lines s ≠ []) sessions.
Proof.
  intros U cell_value pool rt kt sessions.
  destruct (parse_cell_raw_lines cell_value pool rt kt) as (Hconcat & Htrim & Hne).
  split; [exact Hconcat|]. split; [exact Htrim | exact Hne].
Qed.

(** ** Course lines *)

Section CourseLines.
Context {U : Unicode}.

Lemma contains_char (c : N) (s : pystr) : contains [c] s = true ↔ c ∈ s.
Proof.
  rewrite contains_spec. split.
  - intros (a & b & ->). apply elem_of_app. right. apply list_elem_of_here.
  - intros (a & b & ->)%list_elem_of_split. by exists a, b.
Qed.

Lemma rsplit1_from_none sep s : ∀ acc, sep ∉ s → rsplit1_from sep acc s = None.
Proof.
  induction s as [|c s IH]; intros acc Hs; simpl; [done|].
  apply not_elem_of_cons in Hs as [Hc Hs]. rewrite IH by done.
  destruct (c =? sep) eqn:E; [|done]. apply N.eqb_eq in E. congruence.
Qed.

(** [rsplit] cuts at the last separator. *)
Lemma rsplit1_from_last sep a r : ∀ acc,
  sep ∉ r → rsplit1_from sep acc (a ++ sep :: r) = Some (reverse acc ++ a, r).
Proof.
  induction a as [|c a IH]; intros acc Hr; simpl.
  - rewrite rsplit1_from_none, N.eqb_refl, app_nil_r by done. done.
  - rewrite IH by done. by rewrite reverse_cons, <- app_assoc.
Qed.

(** A text with a separator has a last one. *)
Lemma last_occurrence (sep : N) (s : pystr) :
  sep ∈ s → ∃ a r, s = a ++ sep :: r ∧ sep ∉ r.
Proof.
  induction s as [|c s IH]; [by intros ?%elem_of_nil|].
  destruct (decide (sep ∈ s)) as [Hin|Hout].
  - intros _. destruct (IH Hin) as (a & r & -> & Hr). by exists (c :: a), r.
  - intros [->|?]%elem_of_cons; [|done]. by exists [], s.
Qed.

End CourseLines.

(** X6. [split_course_line] gives no title and no code for a missing or
    empty line; for a line without "#" the trimmed line is the title and
    there is no code; for a line with "#" it cuts at the last "#": the
    trimmed text before it is the title and the trimmed text after it the
    code, each null when empty. A code is never empty, is trimmed and holds
    no "#". *)
Theorem split_course_line_cuts_at_last_hash :
  ∀ (U : Unicode),
    split_course_line None = (None, None) ∧
    split_course_line (Some []) = (None, None) ∧
    (∀ line, line ≠ [] → chr "#" ∉ line →
       split_course_line (Some line) = (Some (strip line), None)) ∧
    (∀ a r, chr "#" ∉ r →
       split_course_line (Some (a ++ chr "#" :: r))
       = (or_None (strip a), or_None (strip r))) ∧
    (∀ line title code,
       split_course_line line = (title, Some code) →
       trimmed code ∧ chr "#" ∉ code).
Proof.
  intros U.
  assert (H3 : ∀ line, line ≠ [] → chr "#" ∉ line →
             split_course_line (Some line) = (Some (strip line), None)).
  { intros [|c l] Hne Hout; [done|]. unfold split_course_line.
    destruct (contains (u "#") (c :: l)) eqn:Ec; [|done].
    by apply (contains_char (chr "#")) in Ec. }
  assert (H4 : ∀ a r, chr "#" ∉ r →
             split_course_line (Some (a ++ chr "#" :: r))
             = (or_None (strip a), or_None (strip r))).
  { intros a r Hr. unfold split_course_line.
    destruct (a ++ chr "#" :: r) as [|c l] eqn:E; [by destruct a|]. rewrite <- E.
    assert (Hc : contains (u "#") (a ++ chr "#" :: r) = true).
    { apply (contains_char (chr "#")), elem_of_app. right. apply list_elem_of_here. }
    rewrite Hc. simpl. unfold rsplit1. by rewrite rsplit1_from_last. }
  split; [done|]. split; [done|]. split; [done|]. split; [done|].
  intros [line|] title code; [|done].
  destruct (decide (line = [])) as [->|Hne]; [done|].
  destruct (decide (chr "#" ∈ line)) as [Hin|Hout].
  - destruct (last_occurrence _ _ Hin) as (a & r & -> & Hr). rewrite H4 by done.
    intros [= _ Hcode]. unfold or_None in Hcode.
    destruct (strip r) as [|c t] eqn:Er; [done|]. injection Hcode as <-.
    rewrite <- Er. split.
    + apply strip_trimmed. by rewrite Er.
    + intros Hc. by apply elem_of_strip in Hc.
  - by rewrite H3.
Qed.

(** ** The teacher line *)

Section TeacherLine.
Context {U : Unicode}.

Lemma star_iter_frame body i :
  (∀ st st', st' ∈ body st → caps st' !! i = caps st !! i) →
  ∀ fuel st st', st' ∈ star_iter body fuel st → caps st' !! i = caps st !! i.
Proof.
  intros Hbody fuel. induction fuel as [|fuel IH]; intros st st'; simpl.
  - by intros ->%list_elem_of_singleton.
  - rewrite elem_of_app, list_elem_of_singleton, elem_of_flat_map.
    intros [(st1 & H1 & H2) | ->]; [|done].
    destruct (_ <? _)%nat; [|by apply elem_of_nil in H2].
    by rewrite (IH _ _ H2), (Hbody _ _ H1).
Qed.

(** A match leaves alone the groups that do not occur in the pattern. *)
Lemma run_caps_frame ic i r :
  mentions i r = false →
  ∀ st st', st' ∈ run ic r st → caps st' !! i = caps st !! i.
Proof.
  induction r as [|c| | | | |r1 IH1 r2 IH2|r1 IH1 r2 IH2|r1 IH1|j r1 IH1];
    simpl; intros Hm st st'.
  - by intros ->%list_elem_of_singleton.
  - by intros ->%step_if_caps.
  - by intros ->%step_if_caps.
  - by intros ->%step_if_caps.
  - destruct (before st); [|by intros ?%elem_of_nil].
    by intros ->%list_elem_of_singleton.
  - destruct (xorb _ _); [|by intros ?%elem_of_nil].
    by intros ->%list_elem_of_singleton.
  - apply orb_false_iff in Hm as [Hm1 Hm2]. rewrite elem_of_flat_map.
    intros (st1 & H1 & H2). by rewrite (IH2 Hm2 _ _ H2), (IH1 Hm1 _ _ H1).
  - apply orb_false_iff in Hm as [Hm1 Hm2]. rewrite elem_of_app.
    intros [H|H]; [by apply IH1 | by apply IH2].
  - apply (star_iter_frame (run ic r1) i (IH1 Hm) (S (length (rest st)))).
  - apply orb_false_iff in Hm as [Hj Hm]. apply Nat.eqb_neq in Hj.
    rewrite list_elem_of_fmap. intros (st1 & -> & H1). simpl.
    rewrite lookup_insert_ne by done. by apply IH1.
Qed.

Lemma run_digit ic st st' :
  st' ∈ run ic Digit st ↔
  ∃ d s', rest st = d :: s' ∧ isdecimal d = true ∧ st' = advance d s' st.
Proof. apply elem_of_step_if. Qed.

Lemma run_lit c st st' :
  st' ∈ run false (Lit c) st ↔ ∃ s', rest st = c :: s' ∧ st' = advance c s' st.
Proof.
  simpl. rewrite elem_of_step_if. split.
  - intros (x & s' & E & ->%N.eqb_eq & ->). by exists s'.
  - intros (s' & E & ->). exists c, s'. by rewrite N.eqb_refl.
Qed.

(** What [\d{2}:\d{2}] consumes. *)
Lemma run_hh_mm st st' :
  st' ∈ run false hh_mm st →
  ∃ t, is_hh_mm t ∧ rest st = t ++ rest st'.
Proof.
  unfold hh_mm, two_digits, Seqs. cbn [foldr Rep].
  intros (s2 & H2 & H)%elem_of_run_seq.
  apply elem_of_run_seq in H2 as (s1 & (d1 & r1 & E1 & D1 & ->)%run_digit & H2).
  apply elem_of_run_seq in H2 as (? & (d2 & r2 & E2 & D2 & ->)%run_digit & ->%elem_of_run_eps).
  apply elem_of_run_seq in H as (? & (r3 & E3 & ->)%run_lit & H).
  apply elem_of_run_seq in H as (s4 & H4 & ->%elem_of_run_eps).
  apply elem_of_run_seq in H4 as (? & (d3 & r4 & E4 & D3 & ->)%run_digit & H4).
  apply elem_of_run_seq in H4 as (? & (d4 & r5 & E5 & D4 & ->)%run_digit & ->%elem_of_run_eps).
  simpl in *. subst. exists [d1; d2; chr ":"; d3; d4]. split; [|by rewrite E1].
  by exists d1, d2, d3, d4.
Qed.

Lemma run_group_hh_mm i st st' :
  st' ∈ run false (Group i hh_mm) st →
  ∃ t, is_hh_mm t ∧ caps st' !! i = Some t.
Proof.
  intros (st1 & -> & H)%elem_of_run_group.
  apply run_hh_mm in H as (t & Ht & E). exists t. split; [done|].
  simpl. rewrite lookup_insert_eq, E, length_app. f_equal.
  replace (length t + length (rest st1) - length (rest st1))%nat with (length t) by lia.
  by rewrite take_app_length.
Qed.

(** Both groups of a match of [TIME_RE] are times of day. *)
Lemma run_TIME_RE st st' :
  st' ∈ run false TIME_RE st →
  ∃ t1 t2, is_hh_mm t1 ∧ is_hh_mm t2 ∧
           caps st' !! 1%nat = Some t1 ∧ caps st' !! 2%nat = Some t2.
Proof.
  unfold TIME_RE, Seqs. cbn [foldr].
  intros (s1 & _ & H)%elem_of_run_seq.
  apply elem_of_run_seq in H as (s2 & (t1 & Ht1 & C1)%run_group_hh_mm & H).
  pose proof (λ Hm, run_caps_frame false 1%nat _ Hm _ _ H) as F1.
  rewrite <- (F1 eq_refl) in C1. clear F1.
  apply elem_of_run_seq in H as (s3 & _ & H).
  apply elem_of_run_seq in H as (s4 & _ & H).
  apply elem_of_run_seq in H as (s5 & _ & H).
  apply elem_of_run_seq in H as (s6 & (t2 & Ht2 & C2)%run_group_hh_mm & H).
  pose proof (λ Hm, run_caps_frame false 2%nat _ Hm _ _ H) as F2.
  rewrite <- (F2 eq_refl) in C2. clear F2.
  by exists t1, t2.
Qed.

Lemma match_at_TIME_RE pre s m :
  match_at false TIME_RE pre s = Some m →
  ∃ t1 t2, is_hh_mm t1 ∧ is_hh_mm t2 ∧ group m 1 = Some t1 ∧ group m 2 = Some t2.
Proof.
  unfold match_at.
  destruct (run false TIME_RE _) as [|st l] eqn:E; [done|]. intros [= <-].
  apply (run_TIME_RE (MState pre s ∅)). rewrite E. apply list_elem_of_here.
Qed.

Lemma re_search_TIME_RE line m :
  re_search false TIME_RE line = Some m →
  ∃ t1 t2, is_hh_mm t1 ∧ is_hh_mm t2 ∧ group m 1 = Some t1 ∧ group m 2 = Some t2.
Proof.
  unfold re_search. generalize (@nil N) as pre.
  induction line as [|c s IH]; intros pre; cbn [search_from];
    destruct (match_at false TIME_RE pre _) eqn:E; try done.
  - intros [= ->]. by eapply match_at_TIME_RE.
  - apply IH.
Qed.



(** The loop that looks for the teacher line keeps the last line with a
    time range. *)
Lemma find_teacher_snoc l x :
  find_teacher (l ++ [x])
  = if has_time x then (Some x, Some (length l)) else find_teacher l.
Proof.
  unfold find_teacher, enumerate. rewrite enumerate_from_snoc, fold_left_app.
  cbn [fold_left]. by rewrite Nat.add_0_l.
Qed.

Lemma find_teacher_Some l t ti :
  find_teacher l = (Some t, ti) →
  ∃ above below, l = above ++ t :: below ∧ has_time t = true ∧
                 Forall (λ x, has_time x = false) below.
Proof.
  induction l as [|x l IH] using rev_ind; [done|].
  rewrite find_teacher_snoc. destruct (has_time x) eqn:Ex.
  - intros [= <- _]. exists l, []. by repeat split.
  - intros (above & below & -> & Ht & Hb)%IH.
    exists above, (below ++ [x]). rewrite <- app_assoc. split; [done|].
    split; [done|]. apply Forall_app. split; [done|]. by constructor.
Qed.

(** The three values [parse_session] reads off the teacher line. *)
Lemma parse_session_teacher lines pool rt kt :
  let s := parse_session lines pool rt kt in
  (teacher_name s = None ∧ start_time s = None ∧ end_time s = None) ∨
  ∃ line above below,
    raw_lines s = above ++ line :: below ∧ has_time line = true ∧
    Forall (λ x, has_time x = false) below ∧
    teacher_name s = or_None (strip (default [] (head (split (chr "(") line)))) ∧
    ∃ m, re_search false TIME_RE line = Some m ∧
         start_time s = group m 1 ∧ end_time s = group m 2.
Proof.
  unfold parse_session.
  destruct (find_teacher _) as [teacher_line teacher_index] eqn:Ef.
  match goal with
  | |- context [let '(_, _) := ?x in _] => destruct x as [[? ?] ?]
  end.
  destruct (split_course_line _) as [? ?].
  destruct teacher_line as [[|c tl]|];
    [left; by repeat split | | left; by repeat split].
  right. apply find_teacher_Some in Ef as (above & below & Ecl & Ht & Hb).
  exists (c :: tl), above, below.
  change (default [] (Some (c :: tl))) with (c :: tl). cbn [truthy].
  destruct (re_search false TIME_RE (c :: tl)) as [m|] eqn:Hm.
  - split; [exact Ecl|]. split; [done|]. split; [done|].
    split; [reflexivity|]. exists m. by repeat split.
  - unfold has_time in Ht. rewrite Hm in Ht.
    apply bool_decide_eq_true in Ht as [? ?]. done.
Qed.

End TeacherLine.

(** X7. In every session, [start_time] and [end_time], when present, are
    five characters: two decimal digits, a colon, two decimal digits. *)
Theorem times_are_two_digits_colon_two_digits :
  ∀ (U : Unicode) (lines pool : list pystr) (rt kt : bool),
    let s := parse_session lines pool rt kt in
    (∀ t, start_time s = Some t → is_hh_mm t) ∧
    (∀ t, end_time s = Some t → is_hh_mm t).
Proof.
  intros U lines pool rt kt s.
  destruct (parse_session_teacher lines pool rt kt)
    as [(_ & E1 & E2) | (line & _ & _ & _ & _ & _ & _ & m & Hm & E1 & E2)];
    fold s in E1, E2; rewrite E1, E2; [done|].
  destruct (re_search_TIME_RE _ _ Hm) as (t1 & t2 & H1 & H2 & -> & ->).
  split; by intros t [= <-].
Qed.


(** ** The header row *)

Section HeaderRow.
Context {U : Unicode}.

(** The state of the loop of [find_header_row] after the rows [l]. *)
Lemma header_scan_state l :
  let '(best_row, best_score) := fold_left header_scan (enumerate l) (0%nat, 0%nat) in
  (∀ i row, l !! i = Some row → (day_score row ≤ best_score)%nat) ∧
  ((best_score = 0%nat ∧ best_row = 0%nat) ∨
   ((0 < best_score)%nat ∧
    ∃ row, l !! best_row = Some row ∧ day_score row = best_score ∧
           ∀ i row', (i < best_row)%nat → l !! i = Some row' →
                     (day_score row' < best_score)%nat)).
Proof.
  induction l as [|x l IH] using rev_ind.
  - simpl. split; [done | by left].
  - unfold enumerate in *. rewrite enumerate_from_snoc, fold_left_app.
    cbn [fold_left]. rewrite Nat.add_0_l.
    destruct (fold_left header_scan _ _) as [br bs]. destruct IH as [Hmax Hbest].
    unfold header_scan. destruct (bs <? day_score x)%nat eqn:E.
    + apply Nat.ltb_lt in E. split.
      * intros i row Hi. apply lookup_app_Some in Hi as [Hi|[_ Hi]].
        -- specialize (Hmax i row Hi). lia.
        -- apply list_lookup_singleton_Some in Hi as [_ <-]. lia.
      * right. split; [lia|]. exists x. split; [by rewrite list_lookup_middle|].
        split; [done|]. intros i row' Hlt Hi. rewrite lookup_app_l in Hi by done.
        specialize (Hmax i row' Hi). lia.
    + apply Nat.ltb_ge in E. split.
      * intros i row Hi. apply lookup_app_Some in Hi as [Hi|[_ Hi]].
        -- by apply (Hmax i row).
        -- by apply list_lookup_singleton_Some in Hi as [_ <-].
      * destruct Hbest as [?|(Hpos & row & Hrow & Hs & Hbefore)]; [by left|].
        right. split; [done|]. exists row. split; [by apply lookup_app_l_Some|].
        split; [done|]. intros i row' Hlt Hi. apply (Hbefore i row' Hlt).
        apply lookup_lt_Some in Hrow.
        by rewrite lookup_app_l in Hi by lia.
Qed.

End HeaderRow.

(** X9. [find_header_row] returns a row among the first ten of the table
    (row 0 for an empty table); no row among the first ten has more cells
    naming a day than the row returned, and every row above the row
    returned has fewer. *)
Theorem find_header_row_is_first_best :
  ∀ (U : Unicode) (df : frame),
    let best := find_header_row df in
    let score_of i := day_score (default [] (df !! i)) in
    (df ≠ [] → (best < length df `min` 10)%nat) ∧
    (df = [] → best = 0%nat) ∧
    (∀ i, (i < length df `min` 10)%nat → (score_of i ≤ score_of best)%nat) ∧
    (∀ i, (i < best)%nat → (score_of i < score_of best)%nat).
Proof.
  intros U df best score_of. subst best score_of. unfold find_header_row.
  pose proof (header_scan_state (take (length df `min` 10) df)) as H.
  destruct (fold_left header_scan _ _) as [br bs]. simpl.
  destruct H as [Hmax Hbest].
  assert (Hlen : length (take (length df `min` 10) df) = (length df `min` 10)%nat).
  { rewrite length_take. lia. }
  assert (Htake : ∀ i, (i < length df `min` 10)%nat →
            take (length df `min` 10) df !! i = df !! i).
  { intros i Hi. by apply lookup_take_lt. }
  destruct Hbest as [[-> ->] | (Hpos & row & Hrow & Hs & Hbefore)].
  - split; [|split; [done|split]].
    + intros Hne. destruct df; [done|]. simpl. lia.
    + intros i Hi. destruct (df !! i) as [r|] eqn:Er; simpl.
      * rewrite <- Htake in Er by done. specialize (Hmax i r Er). lia.
      * apply lookup_ge_None in Er. lia.
    + intros i Hi. lia.
  - assert (Hbr : (br < length df `min` 10)%nat).
    { apply lookup_lt_Some in Hrow. by rewrite Hlen in Hrow. }
    rewrite Htake in Hrow by done. rewrite Hrow. simpl. rewrite Hs.
    split; [done|]. split; [by intros ->|]. split.
    + intros i Hi. destruct (df !! i) as [r|] eqn:Er; simpl.
      * rewrite <- Htake in Er by done. by apply (Hmax i r).
      * apply lookup_ge_None in Er. lia.
    + intros i Hi. destruct (df !! i) as [r|] eqn:Er; simpl.
      * rewrite <- Htake in Er by lia. by apply (Hbefore i r).
      * apply lookup_ge_None in Er. lia.
Qed.

(** ** The columns of the days *)

Section Columns.
Context {U : Unicode}.

Lemma normalize_day_in_names value day :
  normalize_day value = Some day → day ∈ DAY_NAMES.
Proof. unfold normalize_day. intros [Hin _]%find_some. by apply list_elem_of_In. Qed.

Lemma last_day_seen_in_names l day : last_day_seen l = Some day → day ∈ DAY_NAMES.
Proof.
  induction l as [|w l IH]; simpl; [done|].
  destruct (last_day_seen l) as [d|].
  - intros [= <-]. by apply IH.
  - apply normalize_day_in_names.
Qed.

Lemma day_columns_Some header_row idx day :
  day_columns header_row !! idx = Some day →
  day ∈ DAY_NAMES ∧
  ∃ value, map strip header_row !! idx = Some value ∧
    (normalize_day value = Some day ∨
     (value = [] ∧ (0 < idx)%nat ∧ normalize_day value = None ∧
      last_day_seen (take idx (map strip header_row)) = Some day)).
Proof.
  rewrite day_columns_lookup.
  destruct (map strip header_row !! idx) as [value|] eqn:Ev; [|done].
  destruct (normalize_day value) as [d|] eqn:Ed.
  - intros [= <-]. split; [by eapply normalize_day_in_names|]. exists value. auto.
  - destruct (0 <? idx)%nat eqn:Ei; [|done]. destruct value as [|c v]; [|done]. simpl.
    intros Hl. split; [by eapply last_day_seen_in_names|].
    exists []. split; [done|]. right. apply Nat.ltb_lt in Ei. done.
Qed.

Lemma day_column_items_days header_row idx day :
  (idx, day) ∈ day_column_items header_row → day ∈ DAY_NAMES.
Proof.
  unfold day_column_items. rewrite list_elem_of_omap. intros (i & _ & H).
  destruct (day_columns header_row !! i) as [d|] eqn:E; [|done].
  injection H as <- <-. by apply day_columns_Some in E as [? _].
Qed.

End Columns.

(** X10. A column that [day_columns] maps to a day lies in the header row
    and is mapped to one of the seven day names: either its trimmed cell
    names that day, or the cell is blank, is not column 0, and the day is
    the last one named before it. A non-blank cell that names no day is
    never mapped. *)
Theorem mapped_columns_are_days_or_blank_continuations :
  ∀ (U : Unicode) (header_row : list pystr) (idx : nat) (day : pystr),
    day_columns header_row !! idx = Some day →
    day ∈ DAY_NAMES ∧
    ∃ value, map strip header_row !! idx = Some value ∧
      (normalize_day value = Some day ∨
       (value = [] ∧ (0 < idx)%nat ∧ normalize_day value = None ∧
        last_day_seen (take idx (map strip header_row)) = Some day)).
Proof.
  intros U header_row idx day Hmapped.
  destruct (day_columns_Some header_row idx day Hmapped) as (Hday & value & Hcell & Hwhy).
  split; [exact Hday|]. exists value. split; [exact Hcell | exact Hwhy].
Qed.

(** Column 2 of ["Room", "Monday", "", "Tuesday"] is a blank continuation. *)
Lemma mapped_columns_are_days_or_blank_continuations_witness :
  u "Monday" ∈ DAY_NAMES ∧
  ∃ value,
    map (strip (U := ascii_tables)) [u "Room"; u "Monday"; u ""; u "Tuesday"] !! 2%nat
    = Some value ∧
    (normalize_day (U := ascii_tables) value = Some (u "Monday") ∨
     (value = [] ∧ (0 < 2)%nat ∧ normalize_day (U := ascii_tables) value = None ∧
      last_day_seen (U := ascii_tables)
        (take 2 (map (strip (U := ascii_tables))
                   [u "Room"; u "Monday"; u ""; u "Tuesday"]))
      = Some (u "Monday"))).
Proof.
  apply (mapped_columns_are_days_or_blank_continuations ascii_tables
           [u "Room"; u "Monday"; u ""; u "Tuesday"] 2%nat (u "Monday")).
  reflexivity.
Defined.

(** ** The timetable the walker builds *)

Section Walker.
Context {U : Unicode}.

Lemma setdefault_then_keys {V} (f : V → V) dflt k (d : list (pystr * V)) :
  map fst (setdefault_then f dflt k d)
  = if bool_decide (k ∈ map fst d) then map fst d else map fst d ++ [k].
Proof.
  induction d as [|[k' v] d IH]; simpl; [done|].
  unfold str_eqb. destruct (decide (k' = k)) as [->|Hne].
  - rewrite bool_decide_eq_true_2 by done. simpl.
    rewrite bool_decide_eq_true_2; [done | apply list_elem_of_here].
  - rewrite bool_decide_eq_false_2 by done. simpl. rewrite IH.
    destruct (decide (k ∈ map fst d)) as [Hin|Hout].
    + rewrite !bool_decide_eq_true_2; [done | by apply list_elem_of_further | done].
    + rewrite !bool_decide_eq_false_2; [done | | done].
      intros [?|?]%elem_of_cons; congruence.
Qed.

Lemma setdefault_then_NoDup {V} (f : V → V) dflt k (d : list (pystr * V)) :
  NoDup (map fst d) → NoDup (map fst (setdefault_then f dflt k d)).
Proof.
  intros Hd. rewrite setdefault_then_keys. case_bool_decide as Hk; [done|].
  apply NoDup_app. split; [done|]. split; [|apply NoDup_singleton].
  intros x Hx ->%list_elem_of_singleton. done.
Qed.

Lemma setdefault_then_Forall {V} (P : pystr * V → Prop) (f : V → V) dflt k
    (d : list (pystr * V)) :
  Forall P d → (∀ v, P (k, v) → P (k, f v)) → P (k, f dflt) →
  Forall P (setdefault_then f dflt k d).
Proof.
  intros Hd Hf Hnew. induction Hd as [|[k' v] d Hkv Hd IH]; simpl.
  - by constructor.
  - unfold str_eqb. case_bool_decide as Hk.
    + subst k'. constructor; [by apply Hf | done].
    + by constructor.
Qed.

Lemma setdefault_then_nonempty {V} (f : V → V) dflt k (d : list (pystr * V)) :
  setdefault_then f dflt k d ≠ [].
Proof. destruct d as [|[k' v] d]; simpl; [done|]. by destruct (str_eqb k' k). Qed.

Lemma add_sessions_well_formed day room sessions tt :
  day ∈ DAY_NAMES → room ≠ [] → sessions ≠ [] →
  Forall (λ s, raw_lines s ≠ []) sessions →
  well_formed tt →
  well_formed
    (setdefault_then (setdefault_then (λ l, l ++ sessions) [] room) [] day tt).
Proof.
  intros Hday Hroom Hne Hraw [Hnd Hok].
  assert (Hrooms : ∀ rs, NoDup (map fst rs) → Forall room_ok rs →
            day_ok (day, setdefault_then (λ l, l ++ sessions) [] room rs)).
  { intros rs Hrs Hall. split; [done|]. split; [by apply setdefault_then_NoDup|].
    split; [apply setdefault_then_nonempty|]. simpl.
    apply setdefault_then_Forall; [done| |].
    - intros l (_ & _ & Hl). split; [done|]. split; [by destruct l|].
      apply Forall_app. done.
    - done. }
  split; [by apply setdefault_then_NoDup|].
  apply setdefault_then_Forall; [done| |].
  - intros rs (_ & Hrs & _ & Hall). by apply Hrooms.
  - apply Hrooms; [apply NoDup_nil_2 | constructor].
Qed.

Lemma add_cell_well_formed room pool rt kt tt dv :
  fst dv ∈ DAY_NAMES → room ≠ [] → well_formed tt →
  well_formed (add_cell room pool rt kt tt dv).
Proof.
  destruct dv as [day parts]. simpl. intros Hday Hroom Htt.
  destruct (parse_cell_raw_lines (join [chr "010"] parts) pool rt kt) as (_ & _ & Hraw).
  destruct (parse_cell _ pool rt kt) as [|s ss] eqn:E; [done|].
  by apply add_sessions_well_formed.
Qed.

Lemma collect_cell_days row day_values col :
  snd col ∈ DAY_NAMES →
  Forall (λ dv : pystr * list pystr, fst dv ∈ DAY_NAMES) day_values →
  Forall (λ dv : pystr * list pystr, fst dv ∈ DAY_NAMES) (collect_cell row day_values col).
Proof.
  destruct col as [idx day]. simpl. intros Hday Hall.
  destruct (row !! idx) as [cell|]; [|done].
  destruct (is_nan cell); [done|]. destruct (strip cell) as [|c t]; [done|].
  by apply setdefault_then_Forall.
Qed.

Lemma room_of_row_nonempty row last_room room last_room' :
  room_of_row row last_room = (Some room, last_room') → room ≠ [].
Proof.
  unfold room_of_row. destruct row as [|first others]; [done|].
  match goal with |- context [if is_nan ?r then _ else _] => destruct (is_nan r) end.
  - destruct (_ && truthy last_room) eqn:E; [|done].
    apply andb_true_iff in E as [_ E]. intros [= -> _].
    by destruct room.
  - match goal with |- context [match ?r with [] => _ | _ => _ end] => destruct r eqn:Er end.
    + destruct (_ && truthy last_room) eqn:E; [|done].
      apply andb_true_iff in E as [_ E]. intros [= -> _]. by destruct room.
    + by intros [= <- _].
Qed.

Lemma row_step_well_formed columns pool rt kt st row :
  Forall (λ col : nat * pystr, snd col ∈ DAY_NAMES) columns →
  well_formed (snd st) → well_formed (snd (row_step columns pool rt kt st row)).
Proof.
  destruct st as [last_room built]. simpl. intros Hcols Hb.
  destruct (room_of_row row last_room) as [[room|] last_room'] eqn:Er; [|done].
  apply room_of_row_nonempty in Er. simpl.
  assert (Hdv : Forall (λ dv : pystr * list pystr, fst dv ∈ DAY_NAMES)
                  (fold_left (collect_cell row) columns [])).
  { generalize (Forall_nil_2 (λ dv : pystr * list pystr, fst dv ∈ DAY_NAMES)).
    generalize (@nil (pystr * list pystr)).
    induction Hcols as [|col cols Hcol _ IH]; intros acc Hacc; simpl; [done|].
    apply IH. by apply collect_cell_days. }
  revert built Hb. induction Hdv as [|dv dvs Hd _ IH]; intros built Hb; simpl; [done|].
  apply IH. by apply add_cell_well_formed.
Qed.

Lemma walk_table_well_formed pool rt kt tt df :
  well_formed tt → well_formed (walk_table pool rt kt tt df).
Proof.
  intros Htt. unfold walk_table. destruct (df_empty df); [done|].
  set (columns := day_column_items _).
  assert (Hcols : Forall (λ col : nat * pystr, snd col ∈ DAY_NAMES) columns).
  { apply Forall_forall. intros [idx day] Hin. simpl.
    by eapply day_column_items_days. }
  generalize (drop (S (find_header_row df)) df) as rows.
  assert (H : ∀ rows st, well_formed (snd st) →
            well_formed (snd (fold_left (row_step columns pool rt kt) rows st))).
  { induction rows as [|row rows IH]; intros st Hst; simpl; [done|].
    apply IH. by apply row_step_well_formed. }
  intros rows. by apply H.
Qed.

Lemma fill_well_formed st (tt : timetable) :
  well_formed tt →
  well_formed
    (map (λ day : pystr * rooms,
            (fst day,
             map (λ room : pystr * list ParsedSession,
                    (fst room, map (fill_semester st) (snd room)))
                 (snd day)))
         tt).
Proof.
  intros [Hnd Hok]. split.
  - rewrite map_map. cbn [fst]. done.
  - apply Forall_fmap. eapply Forall_impl; [exact Hok|].
    intros [day rs] (Hd & Hrs & Hne & Hall). cbn [fst snd] in *.
    split; [done|]. cbn [fst snd].
    split; [rewrite map_map; by cbn [fst]|]. split; [by destruct rs|].
    apply Forall_fmap. eapply Forall_impl; [exact Hall|].
    intros [room ss] (Hr & Hss & Hraw). cbn [fst snd] in *. split; [done|].
    cbn [fst snd]. split; [by destruct ss|].
    apply Forall_fmap. eapply Forall_impl; [exact Hraw|].
    intros s Hs. cbn [compose].
    destruct (fill_semester_framed st s)
      as [(_ & _ & _ & _ & _ & _ & _ & _ & _ & _ & _ & _ & _ & _ & _ & E) _].
    by rewrite E.
Qed.

End Walker.

(** X11. The timetable that [parse_timetable] builds is well formed: no day
    and no room of a day occurs twice, every day is one of the seven day
    names, no room name is empty, every day has a room and every room a
    session, and every session has at least one raw line. *)
Theorem parse_timetable_is_well_formed :
  ∀ (U : Unicode) (tables : list frame) (extracted_programs : list pystr)
    (resolve_truncated keep_truncated : bool),
    well_formed
      (parse_timetable tables extracted_programs resolve_truncated keep_truncated).
Proof.
  intros U tables extracted rt kt. unfold parse_timetable, infer_missing_semesters.
  apply fill_well_formed.
  assert (H : ∀ pool built, well_formed built →
            well_formed (fold_left (walk_table pool rt kt) tables built)).
  { intros pool. induction tables as [|df tables IH]; intros built Hb; simpl; [done|].
    apply IH. by apply walk_table_well_formed. }
  apply H. split; [apply NoDup_nil_2 | constructor].
Qed.

(** ** Which program fields come together *)

Section ProgramFields.
Context {U : Unicode}.

Lemma parse_program_fields_together line :
  let pf := parse_program_fields line in
  (is_Some (pf_program pf) → is_Some (pf_section pf)) ∧
  (is_Some (pf_section pf) → is_Some (pf_degree pf)) ∧
  (is_Some (pf_session pf) → is_Some (pf_degree pf)) ∧
  (is_Some (pf_semester pf) → is_Some (pf_degree pf)) ∧
  (∀ p, pf_program pf = Some p → trimmed p).
Proof.
  assert (Hnone : ¬ is_Some (@None pystr)) by (by intros [? ?]).
  assert (HnoneZ : ¬ is_Some (@None Z)) by (by intros [? ?]).
  destruct line as [[|c l]|]; simpl;
    [by do 4 (split; [done|]) | | by do 4 (split; [done|])].
  destruct (re_match true DEGREE_RE _) as [m|] eqn:E; [|by do 4 (split; [done|])].
  assert (Hd : is_Some (group m 1)) by (by apply (match_at_binds _ _ _ _ _ _ E)).
  destruct (re_search true SECTION_RE _) as [sm|]; simpl.
  - do 4 (split; [done|]). intros p Hp. unfold or_None in Hp.
    destruct (strip _) as [|x t] eqn:Es; [done|]. injection Hp as <-.
    rewrite <- Es. apply strip_trimmed. by rewrite Es.
  - do 4 (split; [done|]). done.
Qed.

End ProgramFields.

(** X12. In every session, a program comes with a section, and a section,
    a session or a semester comes with a degree; a program, when present,
    is trimmed and not empty. *)
Theorem program_fields_come_with_a_degree :
  ∀ (U : Unicode) (lines pool : list pystr) (rt kt : bool),
    let s := parse_session lines pool rt kt in
    (is_Some (program s) → is_Some (section s)) ∧
    (is_Some (section s) → is_Some (degree s)) ∧
    (is_Some (session s) → is_Some (degree s)) ∧
    (is_Some (semester s) → is_Some (degree s)) ∧
    (∀ p, program s = Some p → trimmed p).
Proof.
  intros U lines pool rt kt s.
  destruct (parse_session_program_fields lines pool rt kt) as (E1 & E2 & E3 & E4 & E5).
  fold s in E1, E2, E3, E4, E5. rewrite E1, E2, E3, E4, E5.
  apply parse_program_fields_together.
Qed.

(** ** Noise and sessions *)

(** X13. No line of the [raw_lines] of a session of a cell is, once
    lowercased, the swap stamp (U+F362 followed by " swap"), starts with
    "was:" or contains "delete"; every one is trimmed and not blank. *)
Theorem no_was_or_delete_line_reaches_a_session :
  ∀ (U : Unicode) (cell_value : pystr) (pool : list pystr) (rt kt : bool),
    Forall
      (λ s, Forall (λ l, trimmed l ∧ lower l ≠ ICON_F362 :: u " swap" ∧
                         startswith (lower l) (u "was:") = false ∧
                         contains (u "delete") (lower l) = false)
                   (raw_lines s))
      (parse_cell cell_value pool rt kt).
Proof.
  intros U cell pool rt kt.
  destruct (parse_cell_raw_lines cell pool rt kt) as (Hc & Htrim & _).
  assert (Hkept : Forall (λ l, trimmed l ∧ lower l ≠ ICON_F362 :: u " swap" ∧
                               startswith (lower l) (u "was:") = false ∧
                               contains (u "delete") (lower l) = false)
                         (cell_lines cell)).
  { apply Forall_forall. intros l Hl. split.
    { rewrite Forall_forall in Htrim. by apply Htrim. }
    unfold cell_lines in Hl. destruct (strip cell); [by apply elem_of_nil in Hl|].
    apply list_elem_of_fmap in Hl as (x & -> & Hx).
    apply list_elem_of_In, filter_In in Hx as [_ Hx]. unfold keep_line in Hx.
    apply andb_true_iff in Hx as [Hx Hd]. apply andb_true_iff in Hx as [Hx Hw].
    apply andb_true_iff in Hx as [_ Hst].
    rewrite negb_true_iff in Hw, Hd, Hst. unfold str_eqb in Hst.
    by apply bool_decide_eq_false in Hst. }
  apply Forall_forall. intros s Hs. apply Forall_forall. intros l Hl.
  rewrite Forall_forall in Hkept. apply Hkept. rewrite <- Hc.
  apply list_elem_of_In, in_concat. exists (raw_lines s).
  split; [|by apply list_elem_of_In]. apply in_map. by apply list_elem_of_In.
Qed.

(** ** Sessions with and without a time range *)

Section TimesOfCells.
Context {U : Unicode}.

Lemma find_teacher_none_from g : ∀ k acc,
  Forall (λ l, has_time l = false) g →
  fold_left (λ st '(idx, line), if has_time line then (Some line, Some idx) else st)
            (enumerate_from k g) acc = acc.
Proof.
  induction g as [|l g IH]; intros k acc Hg; simpl; [done|].
  apply Forall_cons in Hg as [Hl Hg]. by rewrite Hl, IH.
Qed.

Lemma find_teacher_none g :
  Forall (λ l, has_time l = false) g → find_teacher g = (None, None).
Proof. apply find_teacher_none_from. Qed.

(** The teacher line of a group closed by a time-range line is that line. *)
Lemma find_teacher_last body t :
  has_time t = true → find_teacher (body ++ [t]) = (Some t, Some (length body)).
Proof.
  intros Ht. unfold find_teacher, enumerate.
  rewrite enumerate_from_snoc, fold_left_app. simpl. by rewrite Ht.
Qed.

Lemma parse_session_start_time lines pool rt kt :
  start_time (parse_session lines pool rt kt) =
  let teacher_line :=
    fst (find_teacher (map strip (List.filter (λ l, truthy (Some (strip l))) lines))) in
  if truthy teacher_line then
    match re_search false TIME_RE (default [] teacher_line) with
    | Some m => group m 1
    | None => None
    end
  else None.
Proof.
  unfold parse_session.
  destruct (find_teacher _) as [teacher_line teacher_index].
  match goal with
  | |- context [let '(_, _) := ?x in _] => destruct x as [[? ?] ?]
  end.
  destruct (split_course_line _) as [? ?]. cbn [fst].
  destruct (truthy teacher_line); [|done].
  by destruct (re_search false TIME_RE _).
Qed.

Lemma closed_group_has_times g pool rt kt :
  Forall trimmed g → closed_group g →
  is_Some (start_time (parse_session g pool rt kt)).
Proof.
  intros Htrim (body & t & -> & Ht & _).
  rewrite parse_session_start_time, clean_trimmed_lines by done.
  rewrite find_teacher_last by done. cbn [fst].
  apply Forall_app in Htrim as [_ Htrim]. apply Forall_inv in Htrim as [Hne _].
  destruct t as [|c t]; [done|].
  change (default [] (Some (c :: t))) with (c :: t). cbn [truthy].
  unfold has_time in Ht. apply bool_decide_eq_true in Ht as [m Hm]. rewrite Hm.
  by apply (re_search_binds _ _ _ _ _ Hm).
Qed.

Lemma trailing_group_has_no_times g pool rt kt :
  Forall trimmed g → trailing_group g →
  start_time (parse_session g pool rt kt) = None.
Proof.
  intros Htrim [_ Hg].
  rewrite parse_session_start_time, clean_trimmed_lines by done.
  by rewrite find_teacher_none.
Qed.

End TimesOfCells.

(** X14. In the sessions of a cell, a session has a start time exactly when
    the last of its raw lines holds a time range, and only the last session
    of the cell can be without one. *)
Theorem only_the_last_session_can_lack_times :
  ∀ (U : Unicode) (cell_value : pystr) (pool : list pystr) (rt kt : bool),
    let sessions := parse_cell cell_value pool rt kt in
    Forall (λ s, is_Some (start_time s) ↔
                 ∃ l, last (raw_lines s) = Some l ∧ has_time l = true) sessions ∧
    (∀ i s, sessions !! i = Some s → (S i < length sessions)%nat →
            is_Some (start_time s)).
Proof.
  intros U cell pool rt kt sessions.
  pose proof (cell_lines_trimmed cell) as Htrim.
  assert (Hs : sessions = map (λ g, parse_session g pool rt kt)
                              (group_lines (cell_lines cell))).
  { unfold sessions, parse_cell. by destruct (cell_lines cell). }
  rewrite group_lines_groups_from in Hs.
  pose proof (groups_from_concat (cell_lines cell) []) as Hc. simpl in Hc.
  destruct (groups_from_shape (cell_lines cell) [] (Forall_nil_2 _))
    as (cl & tr & E & Hcl & Htr).
  assert (Hall : ∀ g, g ∈ cl ++ tr → Forall trimmed g).
  { intros g Hg. apply Forall_forall. intros l Hl. rewrite Forall_forall in Htrim.
    apply Htrim. rewrite <- Hc, E. apply list_elem_of_In, in_concat.
    exists g. split; by apply list_elem_of_In. }
  rewrite E in Hs. rewrite Hs. split.
  - apply Forall_fmap, Forall_forall. intros g Hg. cbn [compose].
    pose proof (Hall g Hg) as Hg_trim.
    rewrite parse_session_raw_lines, clean_trimmed_lines by done.
    apply elem_of_app in Hg as [Hg|Hg].
    + rewrite Forall_forall in Hcl. pose proof (Hcl g Hg) as Hclosed.
      split; [|intros _; by apply closed_group_has_times].
      intros _. destruct Hclosed as (body & t & -> & Ht & _).
      exists t. by rewrite last_snoc.
    + destruct Htr as [->|(g' & -> & Hopen)]; [by apply elem_of_nil in Hg|].
      apply list_elem_of_singleton in Hg as ->.
      rewrite trailing_group_has_no_times by done. split; [by intros [? ?]|].
      intros (l & Hl & Ht). destruct Hopen as [_ Hopen].
      rewrite Forall_forall in Hopen. apply last_Some_elem_of in Hl.
      by rewrite (Hopen l Hl) in Ht.
  - intros i s Hi Hlt. rewrite length_map, length_app in Hlt.
    rewrite list_lookup_fmap in Hi.
    assert (Hlen : (length tr ≤ 1)%nat).
    { destruct Htr as [-> | (g' & -> & _)]; simpl; lia. }
    rewrite lookup_app_l in Hi by lia.
    destruct (cl !! i) as [g|] eqn:Eg; [|done]. injection Hi as <-.
    apply list_elem_of_lookup_2 in Eg.
    apply closed_group_has_times.
    + apply Hall, elem_of_app. by left.
    + rewrite Forall_forall in Hcl. by apply Hcl.
Qed.

(** ** Normalized spacing *)

Section Spacing.
Context {U : Unicode}.

Lemma split_ws_from_words s : ∀ cur,
  Forall (λ c, isspace c = false) cur →
  Forall is_word_of_split (split_ws_from cur s).
Proof.
  induction s as [|c s IH]; intros cur Hcur; simpl.
  - destruct cur as [|x cur]; [constructor|]. constructor; [|constructor].
    split; [by rewrite reverse_cons; destruct (reverse cur)|].
    by apply Forall_reverse.
  - destruct (isspace c) eqn:Ec.
    + destruct cur as [|x cur]; [by apply IH|]. constructor; [|by apply IH].
      split; [by rewrite reverse_cons; destruct (reverse cur)|].
      by apply Forall_reverse.
    + apply IH. by constructor.
Qed.

Lemma split_ws_from_word w s : ∀ cur,
  Forall (λ c, isspace c = false) w →
  split_ws_from cur (w ++ s) = split_ws_from (reverse w ++ cur) s.
Proof.
  induction w as [|c w IH]; intros cur Hw; [done|].
  apply Forall_cons in Hw as [Hc Hw]. simpl. rewrite Hc, IH by done.
  by rewrite reverse_cons, <- app_assoc.
Qed.

(** Splitting the words joined by single spaces gives the words back. *)
Lemma split_ws_join ws :
  isspace (chr " ") = true → Forall is_word_of_split ws →
  split_ws (join (u " ") ws) = ws.
Proof.
  intros Hsp. unfold split_ws. induction 1 as [|w ws [Hne Hw] Hws IH]; [done|].
  destruct ws as [|w2 ws].
  - simpl. rewrite <- (app_nil_r w) at 1. rewrite split_ws_from_word by done.
    rewrite app_nil_r. simpl. destruct (reverse w) eqn:Er.
    + apply (f_equal reverse) in Er. rewrite reverse_involutive in Er. done.
    + by rewrite <- Er, reverse_involutive.
  - change (join (u " ") (w :: w2 :: ws))
      with (w ++ chr " " :: join (u " ") (w2 :: ws)).
    rewrite split_ws_from_word by done. rewrite app_nil_r. cbn [split_ws_from].
    rewrite Hsp. destruct (reverse w) eqn:Er.
    + apply (f_equal reverse) in Er. rewrite reverse_involutive in Er. done.
    + by rewrite <- Er, reverse_involutive, IH.
Qed.

Lemma join_words_ends ws c t :
  Forall is_word_of_split ws → join (u " ") ws = c :: t →
  isspace c = false ∧ ∃ x, last (c :: t) = Some x ∧ isspace x = false.
Proof.
  intros Hws. revert c t. induction Hws as [|w ws [Hne Hw] Hws IH]; intros c t; [done|].
  destruct ws as [|w2 ws].
  - simpl. intros ->. split; [by apply Forall_inv in Hw|].
    destruct (last (c :: t)) as [x|] eqn:El; [|by apply last_None in El].
    exists x. split; [done|]. rewrite Forall_forall in Hw. apply Hw.
    by apply last_Some_elem_of.
  - change (join (u " ") (w :: w2 :: ws))
      with (w ++ chr " " :: join (u " ") (w2 :: ws)).
    intros E. split.
    + destruct w as [|x w]; [done|]. injection E as <- _. by apply Forall_inv in Hw.
    + destruct (join (u " ") (w2 :: ws)) as [|c2 t2] eqn:Ej.
      { apply Forall_inv in Hws as [Hne2 _]. simpl in Ej.
        destruct ws; [done|]. by destruct w2. }
      destruct (IH c2 t2 eq_refl) as (_ & x & Hx & Hsx).
      exists x. split; [|done]. rewrite <- E.
      by rewrite (last_app_cons w), last_cons_cons.
Qed.

End Spacing.

(** X15. Given that the space character is whitespace, [normalize_spacing]
    is idempotent, and its result has no whitespace at either end, so that
    trimming it changes nothing. *)
Theorem normalize_spacing_is_idempotent_and_trimmed :
  ∀ (U : Unicode) (value : pystr),
    isspace (chr " ") = true →
    normalize_spacing (normalize_spacing value) = normalize_spacing value ∧
    strip (normalize_spacing value) = normalize_spacing value.
Proof.
  intros U value Hsp. unfold normalize_spacing.
  pose proof (split_ws_from_words value [] (Forall_nil_2 _)) as Hws.
  fold (split_ws value) in Hws. split.
  - by rewrite split_ws_join.
  - destruct (join (u " ") (split_ws value)) as [|c t] eqn:E; [done|].
    destruct (join_words_ends _ _ _ Hws E) as (Hc & x & Hx & Hsx).
    unfold strip. rewrite (drop_while_id _ (c :: t)).
    2: { by intros ? ? [= <- <-]. }
    rewrite drop_while_id; [by rewrite reverse_involutive|].
    intros c' t' Er. assert (Hh : head (reverse (c :: t)) = Some c') by by rewrite Er.
    rewrite head_reverse, Hx in Hh. by injection Hh as <-.
Qed.

(** On the ASCII tables: the words of "  a   b  c " with single spaces. *)
Lemma normalize_spacing_is_idempotent_and_trimmed_witness :
  normalize_spacing (U := ascii_tables)
    (normalize_spacing (U := ascii_tables) (u "  BS   Computer  Science "))
  = normalize_spacing (U := ascii_tables) (u "  BS   Computer  Science ") ∧
  strip (U := ascii_tables)
    (normalize_spacing (U := ascii_tables) (u "  BS   Computer  Science "))
  = normalize_spacing (U := ascii_tables) (u "  BS   Computer  Science ").
Proof.
  apply (normalize_spacing_is_idempotent_and_trimmed ascii_tables). reflexivity.
Defined.

(** ** The pool and the resolver together *)

Section Pool.
Context {U : Unicode}.

Lemma extract_program_lines_tokens text line :
  line ∈ extract_program_lines text →
  trimmed line ∧ is_Some (session_value_of line) ∧ is_Some (semester_value_of line).
Proof.
  unfold extract_program_lines. intros H.
  apply list_elem_of_In, filter_In in H as [Hin H].
  apply andb_true_iff in H as [H Hsem]. apply andb_true_iff in H as [Hne Hses].
  apply bool_decide_eq_true in Hses as [m1 E1], Hsem as [m2 E2].
  apply list_elem_of_In, list_elem_of_fmap in Hin as (x & -> & _).
  split; [apply strip_trimmed; by destruct (strip x)|].
  unfold session_value_of, semester_value_of. rewrite E1, E2. split; by eexists.
Qed.

End Pool.

(** X16. Every line of the pool that [extract_program_lines] reads off the
    first page is trimmed, not empty, and has a session token and a semester
    token; so a program line that the resolver changes, against such a pool,
    always has both. *)
Theorem resolved_lines_have_session_and_semester :
  ∀ (U : Unicode) (text line : pystr),
    let pool := extract_program_lines text in
    let resolved := resolve_program_line line pool in
    Forall (λ l, trimmed l ∧ is_Some (session_value_of l) ∧
                 is_Some (semester_value_of l)) pool ∧
    (resolved = line ∨
     (trimmed resolved ∧ is_Some (session_value_of resolved) ∧
      is_Some (semester_value_of resolved))).
Proof.
  intros U text line pool resolved. split.
  - apply Forall_forall. intros l. apply extract_program_lines_tokens.
  - subst resolved. unfold resolve_program_line.
    rewrite resolve_first_pass_find, resolve_second_pass_find.
    destruct (find (first_pass_ok line) pool) as [c|] eqn:E1.
    { right. apply find_some in E1 as [Hin _].
      by apply list_elem_of_In, extract_program_lines_tokens in Hin. }
    destruct (find (second_pass_ok line) pool) as [c|] eqn:E2; [|by left].
    right. apply find_some in E2 as [Hin _].
    by apply list_elem_of_In, extract_program_lines_tokens in Hin.
Qed.

(** ** Where the fields of a session come from *)

Section Provenance.
Context {U : Unicode}.

Lemma elem_of_enumerate_from {A} (l : list A) : ∀ k i x,
  (i, x) ∈ enumerate_from k l → x ∈ l.
Proof.
  induction l as [|y l IH]; intros k i x; simpl; [by intros ?%elem_of_nil|].
  intros [[= _ ->]|H]%elem_of_cons; [apply list_elem_of_here|].
  apply list_elem_of_further. by eapply IH.
Qed.

Lemma elem_of_bool_filter {A} (f : A → bool) (l : list A) x :
  x ∈ List.filter f l ↔ x ∈ l ∧ f x = true.
Proof. rewrite !list_elem_of_In. apply filter_In. Qed.

Lemma parse_session_provenance lines pool rt kt :
  let s := parse_session lines pool rt kt in
  (∀ h, combined_class s = Some h →
        h ∈ raw_lines s ∧ is_combined_header h = true ∧ is_practical h = false ∧
        h ≠ [ICON_F1F8]) ∧
  (practical s = true → ∃ l, l ∈ raw_lines s ∧ is_practical l = true) ∧
  ((course_title s = None ∧ course_code s = None) ∨
   ∃ l, l ∈ raw_lines s ∧ is_practical l = false ∧ l ≠ [ICON_F1F8] ∧
        split_course_line (Some l) = (course_title s, course_code s)).
Proof.
  unfold parse_session.
  set (clean := map strip (List.filter _ lines)).
  destruct (find_teacher clean) as [teacher_line teacher_index].
  set (content := match teacher_index with Some _ => _ | None => _ end).
  assert (Hcontent : ∀ l, l ∈ content → l ∈ clean).
  { intros l. unfold content. destruct teacher_index as [ti|]; [|done].
    intros ([i x] & -> & Hx)%list_elem_of_fmap.
    apply elem_of_bool_filter in Hx as [Hx _]. by apply elem_of_enumerate_from in Hx. }
  set (meaningful := List.filter _ (List.filter _ content)).
  assert (Hmean : ∀ l, l ∈ meaningful →
            l ∈ clean ∧ is_practical l = false ∧ l ≠ [ICON_F1F8]).
  { intros l Hl. unfold meaningful in Hl.
    apply elem_of_bool_filter in Hl as [Hl Hicon].
    apply elem_of_bool_filter in Hl as [Hl Hp].
    split; [by apply Hcontent|]. split; [by apply negb_true_iff in Hp|].
    apply negb_true_iff in Hicon. unfold str_eqb in Hicon.
    by apply bool_decide_eq_false in Hicon. }
  assert (Hprac : existsb is_practical content = true →
            ∃ l, l ∈ clean ∧ is_practical l = true).
  { intros (l & Hl & Hp)%existsb_exists. exists l.
    split; [by apply Hcontent, list_elem_of_In | done]. }
  assert (Hcourse : ∀ o : option pystr,
            (∀ l, o = Some l → l ∈ meaningful) →
            (fst (split_course_line o) = None ∧ snd (split_course_line o) = None) ∨
            ∃ l, l ∈ clean ∧ is_practical l = false ∧ l ≠ [ICON_F1F8] ∧
                 split_course_line (Some l)
                 = (fst (split_course_line o), snd (split_course_line o))).
  { intros [l|] Ho; [|by left]. right. exists l.
    destruct (Hmean l (Ho l eq_refl)) as (? & ? & ?).
    split; [done|]. split; [done|]. split; [done|].
    by destruct (split_course_line (Some l)). }
  clearbody content meaningful clean.
  destruct (if truthy teacher_line then _ else _) as [[tn st] en].
  destruct meaningful as [|first more]; cbv beta iota.
  { simpl. split; [done|]. split; [done | by left]. }
  assert (Hfirst : first ∈ first :: more) by apply list_elem_of_here.
  destruct (is_combined_header first) eqn:Eh.
  - specialize (Hcourse ((first :: more) !! 1%nat)).
    destruct (split_course_line _) as [title code]. simpl.
    split; [|split; [done|]].
    + intros h [= <-]. destruct (Hmean first Hfirst) as (? & ? & ?). done.
    + apply Hcourse. intros l Hl. by apply list_elem_of_lookup_2 in Hl.
  - specialize (Hcourse (Some first)).
    destruct (split_course_line _) as [title code]. simpl.
    split; [done|]. split; [done|].
    apply Hcourse. by intros l [= <-].
Qed.

End Provenance.

(** X17. In every session: the combined-class header, when present, is one
    of the raw lines, is a combined-class header, is not a "practical" line
    and is not the line U+F1F8; the practical flag is set only when a raw
    line is "practical"; and the course title and code, when either is
    present, are the two parts of one raw line that is neither a "practical"
    line nor the line U+F1F8. *)
Theorem session_fields_come_from_raw_lines :
  ∀ (U : Unicode) (lines pool : list pystr) (rt kt : bool),
    let s := parse_session lines pool rt kt in
    (∀ h, combined_class s = Some h →
          h ∈ raw_lines s ∧ is_combined_header h = true ∧ is_practical h = false ∧
          h ≠ [ICON_F1F8]) ∧
    (practical s = true → ∃ l, l ∈ raw_lines s ∧ is_practical l = true) ∧
    ((course_title s = None ∧ course_code s = None) ∨
     ∃ l, l ∈ raw_lines s ∧ is_practical l = false ∧ l ≠ [ICON_F1F8] ∧
          split_course_line (Some l) = (course_title s, course_code s)).
Proof.
  intros U lines pool rt kt s.
  destruct (parse_session_provenance lines pool rt kt) as (Hcombined & Hpractical & Hcourse).
  split; [exact Hcombined|]. split; [exact Hpractical | exact Hcourse].
Qed.

(** ** The sessions of the timetable *)

Section WalkerSessions.
Context {U : Unicode}.
Variable Q : ParsedSession → Prop.

Lemma add_sessions_all day room sessions (tt : timetable) :
  Forall Q sessions → all_sessions Q tt →
  all_sessions Q
    (setdefault_then (setdefault_then (λ l, l ++ sessions) [] room) [] day tt).
Proof.
  intros Hs Htt. unfold all_sessions.
  assert (Hrooms : ∀ rs : rooms,
            Forall (λ room : pystr * list ParsedSession, Forall Q (snd room)) rs →
            Forall (λ room : pystr * list ParsedSession, Forall Q (snd room))
                   (setdefault_then (λ l, l ++ sessions) [] room rs)).
  { intros rs Hrs. apply setdefault_then_Forall; [done| |done].
    intros l Hl. cbn [snd] in *. by apply Forall_app. }
  apply setdefault_then_Forall; [done| |].
  - intros rs Hrs. by apply Hrooms.
  - apply Hrooms. constructor.
Qed.

Lemma walk_table_all pool rt kt (tt : timetable) df :
  (∀ g, Q (parse_session g pool rt kt)) →
  all_sessions Q tt → all_sessions Q (walk_table pool rt kt tt df).
Proof.
  intros HQ Htt. unfold walk_table. destruct (df_empty df); [done|].
  generalize (day_column_items (default [] (df !! find_header_row df))) as columns.
  intros columns. generalize (drop (S (find_header_row df)) df) as rows.
  enough (H : ∀ rows st, all_sessions Q (snd st) →
            all_sessions Q (snd (fold_left (row_step columns pool rt kt) rows st))).
  { intros rows. by apply H. }
  induction rows as [|row rows IH]; intros st Hst; [done|].
  cbn [fold_left]. apply IH. destruct st as [last_room built]. unfold row_step.
  destruct (room_of_row row last_room) as [[room|] last_room']; [|done].
  cbn [snd] in *. generalize (fold_left (collect_cell row) columns []) as dvs.
  intros dvs. revert built Hst.
  induction dvs as [|[day parts] dvs IHd]; intros built Hb; [done|].
  cbn [fold_left]. apply IHd. unfold add_cell.
  destruct (parse_cell _ pool rt kt) as [|s ss] eqn:E; [done|].
  apply add_sessions_all; [|done]. rewrite <- E. unfold parse_cell.
  destruct (cell_lines _); [constructor|]. apply Forall_fmap, Forall_forall.
  intros g _. apply HQ.
Qed.

End WalkerSessions.

(** X18. Every session of the timetable that [parse_timetable] builds is a
    session that [parse_session] gives for some group of lines, with the
    pool and the flags of the run, except that a null semester may have been
    filled in. *)
Theorem timetable_sessions_are_parsed_sessions :
  ∀ (U : Unicode) (tables : list frame) (extracted_programs : list pystr)
    (resolve_truncated keep_truncated : bool),
    let pool := if resolve_truncated then extracted_programs else [] in
    all_sessions
      (λ s, ∃ g, semester_filled
                   (parse_session g pool resolve_truncated keep_truncated) s)
      (parse_timetable tables extracted_programs resolve_truncated keep_truncated).
Proof.
  intros U tables extracted rt kt pool.
  unfold parse_timetable, infer_missing_semesters. fold pool.
  set (built := fold_left (walk_table pool rt kt) tables []).
  assert (Hb : all_sessions (λ s, ∃ g, s = parse_session g pool rt kt) built).
  { unfold built.
    assert (H : ∀ start : timetable,
              all_sessions (λ s, ∃ g, s = parse_session g pool rt kt) start →
              all_sessions (λ s, ∃ g, s = parse_session g pool rt kt)
                (fold_left (walk_table pool rt kt) tables start)).
    { induction tables as [|df tables IH]; intros start Hs; [done|].
      cbn [fold_left]. apply IH. apply walk_table_all; [|done]. intros g. by exists g. }
    apply H. constructor. }
  generalize (first_pass built) as st. intros st.
  unfold all_sessions in *. apply Forall_fmap. eapply Forall_impl; [exact Hb|].
  intros [day rs] Hrs. cbn [compose snd] in *.
  apply Forall_fmap. eapply Forall_impl; [exact Hrs|].
  intros [room ss] Hss. cbn [compose snd] in *.
  apply Forall_fmap. eapply Forall_impl; [exact Hss|].
  intros s [g ->]. exists g. apply fill_semester_framed.
Qed.
